(** * GroupChat: the real-time group chat component

    A shallow embedding of
    [learnconnect-release/frontend/client/components/ui/GroupChat.tsx]:
    the component's React state and refs, the browser objects it drives
    (WebSockets, timers, the history request, localStorage) and its
    callbacks, each written as a function on an explicit world. *)

From Stdlib Require Import Ascii String.
From stdpp Require Import base list option numbers.

#[local] Set Warnings "-register-all".

Module GroupChat.

(** ** JavaScript values *)

(** A JavaScript string is a sequence of UTF-16 code units. *)
Abbreviation jsstring := (list N).

(** Code units of an ASCII literal, for readable examples. *)
Fixpoint js (s : string) : jsstring :=
  match s with
  | EmptyString => []
  | String c s' => N_of_ascii c :: js s'
  end.

(** [!s] on a string: only the empty string is falsy. *)
Definition falsy (s : jsstring) : bool :=
  match s with [] => true | _ :: _ => false end.

(** ECMAScript WhiteSpace and LineTerminator code points, the set
    stripped by [String.prototype.trim]. *)
Definition isWhiteSpace (c : N) : bool :=
  ((9 <=? c) && (c <=? 13) || (c =? 32) || (c =? 160) || (c =? 5760)
   || (8192 <=? c) && (c <=? 8202) || (c =? 8232) || (c =? 8233)
   || (c =? 8239) || (c =? 8287) || (c =? 12288) || (c =? 65279))%N.

Fixpoint trimStart (s : jsstring) : jsstring :=
  match s with
  | [] => []
  | c :: s' => if isWhiteSpace c then trimStart s' else s
  end.

Definition trimEnd (s : jsstring) : jsstring :=
  reverse (trimStart (reverse s)).

Definition trim (s : jsstring) : jsstring := trimEnd (trimStart s).

(** The JSON values the component builds before [JSON.stringify]. *)
Inductive Json :=
  | JString (s : jsstring)
  | JObject (fields : list (string * Json)).

(** ** Data model *)

Record User := { name : jsstring; profile_picture : option jsstring }.

Record Message := {
  id : Z;
  content : jsstring;
  user_id : Z;
  created_at : jsstring;
  user : User
}.

Inductive ConnectionStatus := connecting | connected | disconnected | error.

Global Instance ConnectionStatus_eq_dec : EqDecision ConnectionStatus.
Proof. solve_decision. Defined.

(** ** Browser objects *)

Inductive ReadyState := CONNECTING | OPEN | CLOSING | CLOSED.

Global Instance ReadyState_eq_dec : EqDecision ReadyState.
Proof. solve_decision. Defined.

(** A socket made by [new WebSocket(`ws://localhost:8058/api/groups/${groupId}/ws?token=${token}`)].
    The two holes of the URL are kept; [ws_group] is also the [groupId]
    captured by the handlers installed on the socket. [ws_sent] collects
    the frames put on the wire. *)
Record WebSocket := {
  ws_group : Z;
  ws_token : jsstring;
  readyState : ReadyState;
  ws_sent : list Json
}.

(** A pending [setTimeout]: its id (browsers hand out ids greater than
    zero, so an id is always truthy), its delay in milliseconds and the
    [groupId] of the [connectWebSocket] closure it will call. *)
Record Timer := { timer_id : nat; timer_delay : Z; timer_group : Z }.

(** A request [fetch(`http://localhost:8058/api/groups/${groupId}/messages`,
    {headers: {Authorization: `Bearer ${token}`}})]. *)
Record FetchRequest := {
  fetch_group : Z;
  fetch_bearer : option jsstring;
  fetch_settled : bool
}.

Inductive LogLine :=
  | FailedToFetchInitialMessages
  | NoAuthTokenFound
  | WebSocketConnected
  | WebSocketError
  | WebSocketDisconnected
  | AttemptingToReconnect.

(** Life of the component's effect: not yet run, active for a [groupId],
    or cleaned up for good. React drops the state updates of a component
    that is gone; the world goes on recording them, and nothing reads
    them any more. *)
Inductive Phase := Fresh | Active (groupId : Z) | Gone.

(** ** The world: component state, refs and environment *)

Record World := {
  (* useState *)
  messages : list Message;
  newMessage : jsstring;
  connectionStatus : ConnectionStatus;
  (* useRef *)
  wsRef : option nat;
  reconnectTimeoutRef : option nat;
  (* React *)
  phase : Phase;
  (* environment *)
  token : option jsstring;
  sockets : list WebSocket;
  timers : list Timer;
  next_timer : nat;
  fetches : list FetchRequest;
  console : list LogLine
}.

Definition init (tok : option jsstring) : World :=
  {| messages := []; newMessage := []; connectionStatus := connecting;
     wsRef := None; reconnectTimeoutRef := None; phase := Fresh;
     token := tok; sockets := []; timers := []; next_timer := 1;
     fetches := []; console := [] |}.

Definition setMessages (f : list Message → list Message) (w : World) : World :=
  {| messages := f (messages w); newMessage := newMessage w;
     connectionStatus := connectionStatus w; wsRef := wsRef w;
     reconnectTimeoutRef := reconnectTimeoutRef w; phase := phase w;
     token := token w; sockets := sockets w; timers := timers w;
     next_timer := next_timer w; fetches := fetches w; console := console w |}.

Definition setNewMessage (s : jsstring) (w : World) : World :=
  {| messages := messages w; newMessage := s;
     connectionStatus := connectionStatus w; wsRef := wsRef w;
     reconnectTimeoutRef := reconnectTimeoutRef w; phase := phase w;
     token := token w; sockets := sockets w; timers := timers w;
     next_timer := next_timer w; fetches := fetches w; console := console w |}.

Definition setConnectionStatus (s : ConnectionStatus) (w : World) : World :=
  {| messages := messages w; newMessage := newMessage w;
     connectionStatus := s; wsRef := wsRef w;
     reconnectTimeoutRef := reconnectTimeoutRef w; phase := phase w;
     token := token w; sockets := sockets w; timers := timers w;
     next_timer := next_timer w; fetches := fetches w; console := console w |}.

Definition set_wsRef (r : option nat) (w : World) : World :=
  {| messages := messages w; newMessage := newMessage w;
     connectionStatus := connectionStatus w; wsRef := r;
     reconnectTimeoutRef := reconnectTimeoutRef w; phase := phase w;
     token := token w; sockets := sockets w; timers := timers w;
     next_timer := next_timer w; fetches := fetches w; console := console w |}.

Definition set_reconnectTimeoutRef (r : option nat) (w : World) : World :=
  {| messages := messages w; newMessage := newMessage w;
     connectionStatus := connectionStatus w; wsRef := wsRef w;
     reconnectTimeoutRef := r; phase := phase w;
     token := token w; sockets := sockets w; timers := timers w;
     next_timer := next_timer w; fetches := fetches w; console := console w |}.

Definition set_phase (p : Phase) (w : World) : World :=
  {| messages := messages w; newMessage := newMessage w;
     connectionStatus := connectionStatus w; wsRef := wsRef w;
     reconnectTimeoutRef := reconnectTimeoutRef w; phase := p;
     token := token w; sockets := sockets w; timers := timers w;
     next_timer := next_timer w; fetches := fetches w; console := console w |}.

Definition set_token (t : option jsstring) (w : World) : World :=
  {| messages := messages w; newMessage := newMessage w;
     connectionStatus := connectionStatus w; wsRef := wsRef w;
     reconnectTimeoutRef := reconnectTimeoutRef w; phase := phase w;
     token := t; sockets := sockets w; timers := timers w;
     next_timer := next_timer w; fetches := fetches w; console := console w |}.

Definition set_sockets (f : list WebSocket → list WebSocket) (w : World) : World :=
  {| messages := messages w; newMessage := newMessage w;
     connectionStatus := connectionStatus w; wsRef := wsRef w;
     reconnectTimeoutRef := reconnectTimeoutRef w; phase := phase w;
     token := token w; sockets := f (sockets w); timers := timers w;
     next_timer := next_timer w; fetches := fetches w; console := console w |}.

Definition set_timers (f : list Timer → list Timer) (n : nat) (w : World) : World :=
  {| messages := messages w; newMessage := newMessage w;
     connectionStatus := connectionStatus w; wsRef := wsRef w;
     reconnectTimeoutRef := reconnectTimeoutRef w; phase := phase w;
     token := token w; sockets := sockets w; timers := f (timers w);
     next_timer := n; fetches := fetches w; console := console w |}.

Definition set_fetches (f : list FetchRequest → list FetchRequest) (w : World) : World :=
  {| messages := messages w; newMessage := newMessage w;
     connectionStatus := connectionStatus w; wsRef := wsRef w;
     reconnectTimeoutRef := reconnectTimeoutRef w; phase := phase w;
     token := token w; sockets := sockets w; timers := timers w;
     next_timer := next_timer w; fetches := f (fetches w); console := console w |}.

Definition console_log (l : LogLine) (w : World) : World :=
  {| messages := messages w; newMessage := newMessage w;
     connectionStatus := connectionStatus w; wsRef := wsRef w;
     reconnectTimeoutRef := reconnectTimeoutRef w; phase := phase w;
     token := token w; sockets := sockets w; timers := timers w;
     next_timer := next_timer w; fetches := fetches w;
     console := console w ++ [l] |}.

(** *** Browser primitives *)

Definition with_readyState (r : ReadyState) (s : WebSocket) : WebSocket :=
  {| ws_group := ws_group s; ws_token := ws_token s; readyState := r;
     ws_sent := ws_sent s |}.

Definition with_frame (f : Json) (s : WebSocket) : WebSocket :=
  {| ws_group := ws_group s; ws_token := ws_token s;
     readyState := readyState s; ws_sent := ws_sent s ++ [f] |}.

(** [new WebSocket(url)]: a socket in state CONNECTING; its handle is its
    position in [sockets]. *)
Definition new_WebSocket (groupId : Z) (tok : jsstring) (w : World) : nat * World :=
  (length (sockets w),
   set_sockets (λ ss, ss ++ [{| ws_group := groupId; ws_token := tok;
                                readyState := CONNECTING; ws_sent := [] |}]) w).

(** [ws.close()]: starts the closing handshake of a socket that is
    connecting or open (the close event comes later), does nothing on
    one that is closing or closed. *)
Definition close_socket (s : WebSocket) : WebSocket :=
  match readyState s with
  | CONNECTING | OPEN => with_readyState CLOSING s
  | CLOSING | CLOSED => s
  end.

Definition ws_close (h : nat) (w : World) : World :=
  set_sockets (alter close_socket h) w.

Inductive Exception := InvalidStateError | SyntaxError.

Inductive result (A : Type) :=
  | Ok (a : A)
  | Throw (e : Exception).
Arguments Ok {A} a.
Arguments Throw {A} e.

(** [ws.send(data)]: throws on a socket still connecting, transmits on
    an open one, silently drops the data on a closing or closed one. *)
Definition ws_send (h : nat) (data : Json) (w : World) : result World :=
  match sockets w !! h with
  | Some s =>
      match readyState s with
      | CONNECTING => Throw InvalidStateError
      | OPEN => Ok (set_sockets (alter (with_frame data) h) w)
      | CLOSING | CLOSED => Ok w
      end
  | None => Ok w
  end.

(** [setTimeout(callback, delay)] for a callback calling the
    [connectWebSocket] closure of [groupId]. *)
Definition setTimeout (groupId : Z) (delay : Z) (w : World) : nat * World :=
  (next_timer w,
   set_timers (λ ts, ts ++ [{| timer_id := next_timer w; timer_delay := delay;
                               timer_group := groupId |}])
              (S (next_timer w)) w).

Definition clearTimeout (t : nat) (w : World) : World :=
  set_timers (filter (λ x, timer_id x ≠ t)) (next_timer w) w.

Definition localStorage_getItem (w : World) : option jsstring := token w.

(** ** The component's callbacks *)

(** [fetchInitialMessages], up to its [await fetch(...)]: the request
    goes out with whatever [localStorage] holds. *)
Definition fetchInitialMessages (groupId : Z) (w : World) : World :=
  let token := localStorage_getItem w in
  set_fetches (λ fs, fs ++ [{| fetch_group := groupId; fetch_bearer := token;
                               fetch_settled := false |}]) w.

(** How the request can settle: a response with [ok] whose body parses
    to a message array, a response with [ok] whose body [response.json()]
    rejects, a response without [ok], or a rejected [fetch]. *)
Inductive FetchOutcome :=
  | ResponseOk (data : list Message)
  | ResponseOkBadBody
  | ResponseNotOk (status : Z)
  | NetworkError.

(** The rest of [fetchInitialMessages], run when the request settles. *)
Definition fetchInitialMessages_resume (o : FetchOutcome) (w : World) : World :=
  match o with
  | ResponseOk data => setMessages (λ _, data) w
  | ResponseNotOk _ => w
  | ResponseOkBadBody | NetworkError => console_log FailedToFetchInitialMessages w
  end.

Definition connectWebSocket (groupId : Z) (w : World) : World :=
  match localStorage_getItem w with
  | None | Some [] =>
      setConnectionStatus error (console_log NoAuthTokenFound w)
  | Some token =>
      let w := match wsRef w with
               | Some h => ws_close h w
               | None => w
               end in
      let w := setConnectionStatus connecting w in
      let '(ws, w) := new_WebSocket groupId token w in
      set_wsRef (Some ws) w
  end.

Definition onopen (w : World) : World :=
  let w := console_log WebSocketConnected w in
  let w := setConnectionStatus connected w in
  match reconnectTimeoutRef w with
  | Some t => set_reconnectTimeoutRef None (clearTimeout t w)
  | None => w
  end.

(** The updater handed to [setMessages] in [ws.onmessage]. *)
Definition onmessage_update (newMsg : Message) (prev : list Message) : list Message :=
  if existsb (λ m, id m =? id newMsg)%Z prev then prev else prev ++ [newMsg].

(** [event.data] after [JSON.parse]: a message, or text that does not
    parse. *)
Inductive Payload := Parsed (newMsg : Message) | Malformed.

Definition onmessage (data : Payload) (w : World) : result World :=
  match data with
  | Malformed => Throw SyntaxError
  | Parsed newMsg => Ok (setMessages (onmessage_update newMsg) w)
  end.

Definition onerror (w : World) : World :=
  setConnectionStatus error (console_log WebSocketError w).

Definition onclose (groupId : Z) (w : World) : World :=
  let w := console_log WebSocketDisconnected w in
  let w := setConnectionStatus disconnected w in
  let w := set_wsRef None w in
  let '(t, w) := setTimeout groupId 3000 w in
  set_reconnectTimeoutRef (Some t) w.

(** The callback given to [setTimeout] in [ws.onclose]. *)
Definition reconnect (groupId : Z) (w : World) : World :=
  connectWebSocket groupId (console_log AttemptingToReconnect w).

(** Body of the initialising [useEffect]. *)
Definition effect (groupId : Z) (w : World) : World :=
  connectWebSocket groupId (fetchInitialMessages groupId w).

(** The function the effect returns. *)
Definition cleanup (w : World) : World :=
  let w := match wsRef w with
           | Some h => ws_close h w
           | None => w
           end in
  match reconnectTimeoutRef w with
  | Some t => clearTimeout t w
  | None => w
  end.

(** [handleSendMessage]; [e.preventDefault()] only concerns the DOM
    event. *)
Definition handleSendMessage (w : World) : result World :=
  match falsy (trim (newMessage w)), wsRef w, connectionStatus w with
  | false, Some h, connected =>
      match ws_send h (JObject [("content"%string, JString (newMessage w))]) w with
      | Ok w => Ok (setNewMessage [] w)
      | Throw e => Throw e
      end
  | _, _, _ => Ok w
  end.

(** ** Events *)

(** What React, the user and the browser can make happen. *)
Inductive Event :=
  | Mount (groupId : Z)
  | Rerender (groupId : Z)
  | Unmount
  | Change (value : jsstring)
  | Submit
  | StorageSet (tok : option jsstring)
  | FetchSettled (i : nat) (o : FetchOutcome)
  | WsOpen (h : nat)
  | WsMessage (h : nat) (data : Payload)
  | WsError (h : nat)
  | WsClose (h : nat)
  | TimerFire (t : nat).

Definition socket_in (P : ReadyState → bool) (h : nat) (w : World) : bool :=
  match sockets w !! h with
  | Some s => P (readyState s)
  | None => false
  end.

Definition is_active (w : World) : bool :=
  match phase w with Active _ => true | _ => false end.

(** Whether the event can occur in the world: the effect runs once on
    mount; props change, input and submit need a mounted component; a
    request settles once; a socket opens from CONNECTING, delivers
    messages while OPEN, and reports errors and closes once, before it
    is CLOSED; only a pending timer fires. *)
Definition enabled (w : World) (e : Event) : bool :=
  match e with
  | Mount _ => match phase w with Fresh => true | _ => false end
  | Rerender _ | Unmount | Change _ | Submit => is_active w
  | StorageSet _ => true
  | FetchSettled i _ =>
      match fetches w !! i with
      | Some f => negb (fetch_settled f)
      | None => false
      end
  | WsOpen h => socket_in (λ r, bool_decide (r = CONNECTING)) h w
  | WsMessage h _ => socket_in (λ r, bool_decide (r = OPEN)) h w
  | WsError h | WsClose h => socket_in (λ r, bool_decide (r ≠ CLOSED)) h w
  | TimerFire t => bool_decide (t ∈ timer_id <$> timers w)
  end.

Definition settle (f : FetchRequest) : FetchRequest :=
  {| fetch_group := fetch_group f; fetch_bearer := fetch_bearer f;
     fetch_settled := true |}.

(** The code run by an event. The effect is re-run (cleanup first) only
    when [groupId], its one dependency, changes. *)
Definition dispatch (e : Event) (w : World) : result World :=
  match e with
  | Mount g => Ok (effect g (set_phase (Active g) w))
  | Rerender g' =>
      match phase w with
      | Active g =>
          if bool_decide (g = g') then Ok w
          else Ok (effect g' (set_phase (Active g') (cleanup w)))
      | _ => Ok w
      end
  | Unmount => Ok (set_phase Gone (cleanup w))
  | Change value => Ok (setNewMessage value w)
  | Submit => handleSendMessage w
  | StorageSet tok => Ok (set_token tok w)
  | FetchSettled i o =>
      Ok (fetchInitialMessages_resume o (set_fetches (alter settle i) w))
  | WsOpen h => Ok (onopen (set_sockets (alter (with_readyState OPEN) h) w))
  | WsMessage h data => onmessage data w
  | WsError h => Ok (onerror w)
  | WsClose h =>
      match sockets w !! h with
      | Some s =>
          Ok (onclose (ws_group s)
                (set_sockets (alter (with_readyState CLOSED) h) w))
      | None => Ok w
      end
  | TimerFire t =>
      match list_find (λ x, timer_id x = t) (timers w) with
      | Some (_, x) => Ok (reconnect (timer_group x) (clearTimeout t w))
      | None => Ok w
      end
  end.

(** One turn of the event loop: an event that cannot occur changes
    nothing, and an exception escaping a handler leaves the world as the
    handler found it (the handlers throw before any update). *)
Definition step (w : World) (e : Event) : World :=
  if enabled w e then
    match dispatch e w with
    | Ok w' => w'
    | Throw _ => w
    end
  else w.

Definition run (evs : list Event) (w : World) : World := foldl step w evs.

(** ** What the component renders *)

(** The icon of the status line, with its class names. *)
Inductive Icon := Wifi (className : string) | WifiOff (className : string).

Definition getStatusIcon (w : World) : Icon :=
  match connectionStatus w with
  | connected => Wifi "w-4 h-4 text-green-500"
  | connecting => Wifi "w-4 h-4 text-yellow-500 animate-pulse"
  | disconnected | error => WifiOff "w-4 h-4 text-red-500"
  end.

Definition getStatusText (w : World) : jsstring :=
  match connectionStatus w with
  | connected => js "Connected"
  | connecting => js "Connecting..."
  | disconnected => js "Disconnected"
  | error => js "Connection Error"
  end.

(** The form at the bottom of the card: the input and the submit
    button. *)
Record SendForm := {
  input_value : jsstring;
  input_placeholder : jsstring;
  input_disabled : bool;
  button_disabled : bool
}.

Definition render_form (w : World) : SendForm :=
  {| input_value := newMessage w;
     input_placeholder :=
       if decide (connectionStatus w = connected)
       then js "Type a message..." else js "Connecting...";
     input_disabled := bool_decide (connectionStatus w ≠ connected);
     button_disabled := bool_decide (connectionStatus w ≠ connected) |}.

(** ** The page around the chat: [pages/GroupDetail.tsx] *)

Module GroupDetail.

Record GroupMember := {
  id : Z;
  name : jsstring;
  email : jsstring;
  profile_picture : option jsstring;
  bio : option jsstring;
  connection_status : option jsstring
}.

Global Instance GroupMember_eq_dec : EqDecision GroupMember.
Proof. solve_decision. Defined.

(** The fields of the next three records are prefixed where the source
    reuses a name ([id], [title], [url], [resource_type], [members]). *)
Record GroupResource := {
  resource_id : Z;
  resource_title : jsstring;
  resource_url : jsstring;
  resource_type : jsstring;
  shared_by : Z
}.

Record GroupData := {
  group_id : Z;
  group_title : jsstring;
  description : jsstring;
  topic_id : Z;
  created_by : Z;
  group_members : list GroupMember;
  resources : list GroupResource
}.

Record ShareData := {
  share_title : jsstring;
  share_url : jsstring;
  share_resource_type : jsstring
}.

(** *** [getInitials] *)

(** [s.split(sep)] for a separator of one code unit: the pieces between
    the separators, empty pieces included; the empty string gives one
    empty piece. *)
Fixpoint split (sep : N) (s : jsstring) : list jsstring :=
  match s with
  | [] => [[]]
  | c :: s' =>
      if (c =? sep)%N then [] :: split sep s'
      else match split sep s' with
           | piece :: pieces => (c :: piece) :: pieces
           | [] => [[c]]
           end
  end.

(** [xs.join("")] on an array whose elements are one code unit or
    [undefined], which [join] writes as the empty string. *)
Fixpoint join (xs : list (option N)) : jsstring :=
  match xs with
  | [] => []
  | Some c :: xs' => c :: join xs'
  | None :: xs' => join xs'
  end.

Section initials.

(** [String.prototype.toUpperCase], which follows the Unicode case
    tables and may change the length of a string. *)
Variable toUpperCase : jsstring → jsstring.

Definition getInitials (name : jsstring) : jsstring :=
  take 2 (toUpperCase (join ((λ n, head n) <$> split 32 name))).

End initials.

(** *** [getConnectionButton] *)

Inductive ButtonIcon := UserCheck | Loader | X | UserPlus.

(** The button drawn for a member: [onClick] holds the argument of
    [handleAddConnection] when the button has a click handler. *)
Record ConnectionButton := {
  disabled : bool;
  icon : ButtonIcon;
  label : jsstring;
  onClick : option Z
}.

Definition getConnectionButton (actionLoading : option Z) (member : GroupMember)
    : ConnectionButton :=
  let status := match connection_status member with
                | Some (c :: s) => c :: s
                | Some [] | None => js "none"
                end in
  if decide (status = js "accepted") then
    {| disabled := true; icon := UserCheck; label := js "Connected"; onClick := None |}
  else if decide (status = js "pending") then
    {| disabled := true; icon := Loader; label := js "Pending"; onClick := None |}
  else if decide (status = js "rejected" ∨ status = js "blocked") then
    {| disabled := true; icon := X;
       label := if decide (status = js "blocked") then js "Blocked" else js "Rejected";
       onClick := None |}
  else
    {| disabled := bool_decide (actionLoading = Some (id member));
       icon := if decide (actionLoading = Some (id member)) then Loader else UserPlus;
       label := if decide (actionLoading = Some (id member))
                then js "Sending..." else js "Connect";
       onClick := Some (id member) |}.

(** A click reaches [handleAddConnection]. *)
Definition clickable (b : ConnectionButton) : bool :=
  negb (disabled b) && bool_decide (is_Some (onClick b)).

(** *** The page: state and environment *)

(** A request sent with [fetch]. [PostConnection] also records the
    member list its continuation closed over. *)
Inductive Request :=
  | GetGroup (id : jsstring) (bearer : jsstring)
  | GetMembers (id : jsstring) (bearer : jsstring)
  | PostResource (id : jsstring) (bearer : option jsstring) (body : ShareData)
  | PostLeave (id : jsstring) (bearer : option jsstring)
  | PostConnection (bearer : jsstring) (addressee_id : Z)
      (members : list GroupMember).

(** What [response.json()] gives: a value, or a rejection with the
    message of its error. *)
Inductive Body (A : Type) :=
  | Json (data : A)
  | BadJson (message : jsstring).
Arguments Json {A} data.
Arguments BadJson {A} message.

(** How a request settles: a response with its [ok] flag and body, or a
    rejected [fetch] with the message of its error. *)
Inductive Outcome (A : Type) :=
  | Response (ok : bool) (body : Body A)
  | Rejected (message : jsstring).
Arguments Response {A} ok body.
Arguments Rejected {A} message.

Inductive LogLine := FailedToFetchMembers.

Record Page := {
  (* useParams: the [id] of the route, once the page is mounted *)
  route_id : option jsstring;
  (* useState *)
  group : option GroupData;
  members : list GroupMember;
  loading : bool;
  membersLoading : bool;
  error : jsstring;
  showShareForm : bool;
  shareData : ShareData;
  actionLoading : option Z;
  (* environment *)
  token : option jsstring;
  navigated : list jsstring;
  requests : list (Request * bool);
  console : list LogLine
}.

Definition blank_share : ShareData :=
  {| share_title := []; share_url := []; share_resource_type := js "article" |}.

Definition init (tok : option jsstring) : Page :=
  {| route_id := None; group := None; members := []; loading := true;
     membersLoading := false; error := []; showShareForm := false;
     shareData := blank_share; actionLoading := None;
     token := tok; navigated := []; requests := []; console := [] |}.

Definition set_route_id (v : option jsstring) (p : Page) : Page :=
  {| route_id := v; group := group p; members := members p;
     loading := loading p; membersLoading := membersLoading p;
     error := error p; showShareForm := showShareForm p;
     shareData := shareData p; actionLoading := actionLoading p;
     token := token p; navigated := navigated p; requests := requests p;
     console := console p |}.

Definition setGroup (v : GroupData) (p : Page) : Page :=
  {| route_id := route_id p; group := Some v; members := members p;
     loading := loading p; membersLoading := membersLoading p;
     error := error p; showShareForm := showShareForm p;
     shareData := shareData p; actionLoading := actionLoading p;
     token := token p; navigated := navigated p; requests := requests p;
     console := console p |}.

Definition setMembers (v : list GroupMember) (p : Page) : Page :=
  {| route_id := route_id p; group := group p; members := v;
     loading := loading p; membersLoading := membersLoading p;
     error := error p; showShareForm := showShareForm p;
     shareData := shareData p; actionLoading := actionLoading p;
     token := token p; navigated := navigated p; requests := requests p;
     console := console p |}.

Definition setLoading (v : bool) (p : Page) : Page :=
  {| route_id := route_id p; group := group p; members := members p;
     loading := v; membersLoading := membersLoading p;
     error := error p; showShareForm := showShareForm p;
     shareData := shareData p; actionLoading := actionLoading p;
     token := token p; navigated := navigated p; requests := requests p;
     console := console p |}.

Definition setMembersLoading (v : bool) (p : Page) : Page :=
  {| route_id := route_id p; group := group p; members := members p;
     loading := loading p; membersLoading := v;
     error := error p; showShareForm := showShareForm p;
     shareData := shareData p; actionLoading := actionLoading p;
     token := token p; navigated := navigated p; requests := requests p;
     console := console p |}.

Definition setError (v : jsstring) (p : Page) : Page :=
  {| route_id := route_id p; group := group p; members := members p;
     loading := loading p; membersLoading := membersLoading p;
     error := v; showShareForm := showShareForm p;
     shareData := shareData p; actionLoading := actionLoading p;
     token := token p; navigated := navigated p; requests := requests p;
     console := console p |}.

Definition setShowShareForm (v : bool) (p : Page) : Page :=
  {| route_id := route_id p; group := group p; members := members p;
     loading := loading p; membersLoading := membersLoading p;
     error := error p; showShareForm := v;
     shareData := shareData p; actionLoading := actionLoading p;
     token := token p; navigated := navigated p; requests := requests p;
     console := console p |}.

Definition setShareData (v : ShareData) (p : Page) : Page :=
  {| route_id := route_id p; group := group p; members := members p;
     loading := loading p; membersLoading := membersLoading p;
     error := error p; showShareForm := showShareForm p;
     shareData := v; actionLoading := actionLoading p;
     token := token p; navigated := navigated p; requests := requests p;
     console := console p |}.

Definition setActionLoading (v : option Z) (p : Page) : Page :=
  {| route_id := route_id p; group := group p; members := members p;
     loading := loading p; membersLoading := membersLoading p;
     error := error p; showShareForm := showShareForm p;
     shareData := shareData p; actionLoading := v;
     token := token p; navigated := navigated p; requests := requests p;
     console := console p |}.

Definition set_token (v : option jsstring) (p : Page) : Page :=
  {| route_id := route_id p; group := group p; members := members p;
     loading := loading p; membersLoading := membersLoading p;
     error := error p; showShareForm := showShareForm p;
     shareData := shareData p; actionLoading := actionLoading p;
     token := v; navigated := navigated p; requests := requests p;
     console := console p |}.

(** [navigate(path)] is recorded; what the router then does with the
    page is not the component's code. *)
Definition navigate (path : jsstring) (p : Page) : Page :=
  {| route_id := route_id p; group := group p; members := members p;
     loading := loading p; membersLoading := membersLoading p;
     error := error p; showShareForm := showShareForm p;
     shareData := shareData p; actionLoading := actionLoading p;
     token := token p; navigated := navigated p ++ [path];
     requests := requests p; console := console p |}.

Definition set_requests (f : list (Request * bool) → list (Request * bool))
    (p : Page) : Page :=
  {| route_id := route_id p; group := group p; members := members p;
     loading := loading p; membersLoading := membersLoading p;
     error := error p; showShareForm := showShareForm p;
     shareData := shareData p; actionLoading := actionLoading p;
     token := token p; navigated := navigated p; requests := f (requests p);
     console := console p |}.

Definition console_error (l : LogLine) (p : Page) : Page :=
  {| route_id := route_id p; group := group p; members := members p;
     loading := loading p; membersLoading := membersLoading p;
     error := error p; showShareForm := showShareForm p;
     shareData := shareData p; actionLoading := actionLoading p;
     token := token p; navigated := navigated p; requests := requests p;
     console := console p ++ [l] |}.

Definition fetch (r : Request) (p : Page) : Page :=
  set_requests (λ rs, rs ++ [(r, false)]) p.

(** *** The page's callbacks *)

(** [fetchMembers], up to its [await fetch(...)], for the [id] of the
    effect that defined it. *)
Definition fetchMembers (id : jsstring) (p : Page) : Page :=
  match token p with
  | None | Some [] => p
  | Some tok => fetch (GetMembers id tok) (setMembersLoading true p)
  end.

Definition fetchMembers_resume (o : Outcome (list GroupMember)) (p : Page) : Page :=
  let p := match o with
           | Response true (Json data) => setMembers data p
           | Response true (BadJson _) => console_error FailedToFetchMembers p
           | Response false _ => p
           | Rejected _ => console_error FailedToFetchMembers p
           end in
  setMembersLoading false p.

(** The rest of [fetchGroup] once its request has settled. *)
Definition fetchGroup_resume (id : jsstring) (o : Outcome GroupData) (p : Page) : Page :=
  let p := match o with
           | Response true (Json data) => fetchMembers id (setGroup data p)
           | Response true (BadJson message) => setError message p
           | Response false _ => setError (js "Failed to fetch group") p
           | Rejected message => setError message p
           end in
  setLoading false p.

(** Body of [useEffect(..., [id, navigate])]. *)
Definition effect (id : jsstring) (p : Page) : Page :=
  match token p with
  | None | Some [] => navigate (js "/login") p
  | Some tok => fetch (GetGroup id tok) p
  end.

Definition route (p : Page) : jsstring := default [] (route_id p).

Definition handleShareResource (p : Page) : Page :=
  fetch (PostResource (route p) (token p) (shareData p)) p.

Definition handleShareResource_resume (o : Outcome unit) (p : Page) : Page :=
  match o with
  | Response true _ => setShowShareForm false (setShareData blank_share p)
  | Response false _ => setError (js "Failed to share resource") p
  | Rejected message => setError message p
  end.

Definition handleLeaveGroup (p : Page) : Page :=
  fetch (PostLeave (route p) (token p)) p.

Definition handleLeaveGroup_resume (o : Outcome unit) (p : Page) : Page :=
  match o with
  | Response true _ => navigate (js "/groups") p
  | Response false _ => setError (js "Failed to leave group") p
  | Rejected message => setError message p
  end.

Definition pending (member : GroupMember) : GroupMember :=
  {| id := id member; name := name member; email := email member;
     profile_picture := profile_picture member; bio := bio member;
     connection_status := Some (js "pending") |}.

Definition handleAddConnection (userId : Z) (p : Page) : Page :=
  match token p with
  | None | Some [] => p
  | Some tok =>
      fetch (PostConnection tok userId (members p))
            (setActionLoading (Some userId) p)
  end.

(** The rest of [handleAddConnection]: [members] is the list the handler
    closed over when it was called; on a response that is not [ok] the
    body's [detail], a string when present, becomes the message. *)
Definition handleAddConnection_resume (userId : Z) (members : list GroupMember)
    (o : Outcome (option jsstring)) (p : Page) : Page :=
  let p := match o with
           | Response true _ =>
               setMembers ((λ member, if decide (id member = userId)
                                      then pending member else member)
                           <$> members) p
           | Response false (Json detail) =>
               setError (match detail with
                         | Some (c :: d) => c :: d
                         | Some [] | None => js "Failed to send connection request"
                         end) p
           | Response false (BadJson message) => setError message p
           | Rejected message => setError message p
           end in
  setActionLoading None p.

(** *** What the page renders *)

Inductive View :=
  | Spinner
  | Notice (text : jsstring)
  | Detail (g : GroupData) (banner : option jsstring)
      (buttons : option (list ConnectionButton)).

Definition render (p : Page) : View :=
  if loading p then Spinner
  else match group p with
       | None => Notice (if falsy (error p) then js "Group not found" else error p)
       | Some g =>
           Detail g
             (if falsy (error p) then None else Some (error p))
             (if membersLoading p then None
              else Some (getConnectionButton (actionLoading p) <$> members p))
       end.

(** The [groupId] handed to [<GroupChat>], when the chat is rendered. *)
Definition chat_groupId (p : Page) : option Z :=
  match render p with
  | Detail g _ _ => Some (group_id g)
  | _ => None
  end.

Definition shows_detail (p : Page) : bool :=
  match render p with Detail _ _ _ => true | _ => false end.

(** *** Events *)

Inductive Event :=
  | Route (id : jsstring)
  | StorageSet (tok : option jsstring)
  | GroupSettled (i : nat) (o : Outcome GroupData)
  | MembersSettled (i : nat) (o : Outcome (list GroupMember))
  | ShareSettled (i : nat) (o : Outcome unit)
  | LeaveSettled (i : nat) (o : Outcome unit)
  | ConnectionSettled (i : nat) (o : Outcome (option jsstring))
  | ToggleShareForm
  | EditTitle (value : jsstring)
  | EditUrl (value : jsstring)
  | EditType (value : jsstring)
  | CancelShare
  | SubmitShare
  | ClickLeave
  | ClickConnect (member : GroupMember).

(** The unsettled request at position [i]. *)
Definition awaiting (i : nat) (p : Page) : option Request :=
  match requests p !! i with
  | Some (r, false) => Some r
  | _ => None
  end.

(** Whether the event can occur: a request settles once, with an
    outcome of its kind; buttons and fields exist when the view that
    holds them is rendered, and a disabled button takes no click. (The
    browser's check of the required fields of the share form is left
    out: more submits are allowed than it would let through.) *)
Definition enabled (p : Page) (e : Event) : bool :=
  match e with
  | Route _ | StorageSet _ => true
  | GroupSettled i _ =>
      match awaiting i p with Some (GetGroup _ _) => true | _ => false end
  | MembersSettled i _ =>
      match awaiting i p with Some (GetMembers _ _) => true | _ => false end
  | ShareSettled i _ =>
      match awaiting i p with Some (PostResource _ _ _) => true | _ => false end
  | LeaveSettled i _ =>
      match awaiting i p with Some (PostLeave _ _) => true | _ => false end
  | ConnectionSettled i _ =>
      match awaiting i p with Some (PostConnection _ _ _) => true | _ => false end
  | ToggleShareForm | ClickLeave => shows_detail p
  | EditTitle _ | EditUrl _ | EditType _ | CancelShare | SubmitShare =>
      shows_detail p && showShareForm p
  | ClickConnect member =>
      shows_detail p && negb (membersLoading p)
      && bool_decide (member ∈ members p)
      && clickable (getConnectionButton (actionLoading p) member)
  end.

Definition settle (i : nat) (p : Page) : Page :=
  set_requests (alter (λ r, (r.1, true)) i) p.

(** The code run by an event. The effect runs on mount and when the
    [id] of the route changes. *)
Definition dispatch (e : Event) (p : Page) : Page :=
  match e with
  | Route id =>
      if decide (route_id p = Some id) then p
      else effect id (set_route_id (Some id) p)
  | StorageSet tok => set_token tok p
  | GroupSettled i o =>
      match awaiting i p with
      | Some (GetGroup id _) => fetchGroup_resume id o (settle i p)
      | _ => p
      end
  | MembersSettled i o => fetchMembers_resume o (settle i p)
  | ShareSettled i o => handleShareResource_resume o (settle i p)
  | LeaveSettled i o => handleLeaveGroup_resume o (settle i p)
  | ConnectionSettled i o =>
      match awaiting i p with
      | Some (PostConnection _ userId members) =>
          handleAddConnection_resume userId members o (settle i p)
      | _ => p
      end
  | ToggleShareForm => setShowShareForm (negb (showShareForm p)) p
  | EditTitle value =>
      setShareData {| share_title := value; share_url := share_url (shareData p);
                      share_resource_type := share_resource_type (shareData p) |} p
  | EditUrl value =>
      setShareData {| share_title := share_title (shareData p); share_url := value;
                      share_resource_type := share_resource_type (shareData p) |} p
  | EditType value =>
      setShareData {| share_title := share_title (shareData p);
                      share_url := share_url (shareData p);
                      share_resource_type := value |} p
  | CancelShare => setShowShareForm false p
  | SubmitShare => handleShareResource p
  | ClickLeave => handleLeaveGroup p
  | ClickConnect member => handleAddConnection (id member) p
  end.

Definition step (p : Page) (e : Event) : Page :=
  if enabled p e then dispatch e p else p.

Definition run (evs : list Event) (p : Page) : Page := foldl step p evs.

(** Sample data. *)
Definition member (i : Z) (status : option jsstring) : GroupMember :=
  {| id := i; name := js "Ada Lovelace"; email := js "ada@example.org";
     profile_picture := None; bio := None; connection_status := status |}.

Definition study_group (i : Z) : GroupData :=
  {| group_id := i; group_title := js "Algebra"; description := js "Weekly";
     topic_id := 3; created_by := 1; group_members := []; resources := [] |}.

(** Upper case of the ASCII letters, every other code unit kept: what
    [toUpperCase] does on ASCII strings. *)
Definition ascii_upper (s : jsstring) : jsstring :=
  (λ c, if (97 <=? c)%N && (c <=? 122)%N then (c - 32)%N else c) <$> s.

(** Words written one after the other with one space between them. *)
Fixpoint spaced (ws : list jsstring) : jsstring :=
  match ws with
  | [] => []
  | [w] => w
  | w :: ws' => w ++ 32%N :: spaced ws'
  end.



(** The status of a member reads none of the four that disable the
    button. *)
Definition open_to_request (m : GroupMember) : Prop :=
  ∀ st, connection_status m = Some st →
    st ≠ js "accepted" ∧ st ≠ js "pending" ∧ st ≠ js "rejected" ∧ st ≠ js "blocked".

End GroupDetail.



(** ** Vocabulary of the properties *)

(** Live messages delivered one after the other. *)
Definition deliver (ms prev : list Message) : list Message :=
  foldl (λ l m, onmessage_update m l) prev ms.

(** The entry stored under an identifier. *)
Definition entry (i : Z) (l : list Message) : option Message :=
  find (λ m, id m =? i)%Z l.

(** The events that deliver the messages [ms] on socket [h]. *)
Definition live (h : nat) (ms : list Message) : list Event :=
  (λ m, WsMessage h (Parsed m)) <$> ms.


Definition is_open (h : nat) (w : World) : Prop :=
  ∃ s, sockets w !! h = Some s ∧ readyState s = OPEN.

(** The event runs the effect body: the first mount, or a render with a
    changed [groupId]. *)
Definition activates (w : World) (e : Event) : bool :=
  match e, phase w with
  | Mount _, Fresh => true
  | Rerender g', Active g => bool_decide (g ≠ g')
  | _, _ => false
  end.

Definition absent_or_empty (tok : option jsstring) : Prop :=
  tok = None ∨ tok = Some [].

(** Sockets not yet closed. *)
Definition alive (s : WebSocket) : Prop := readyState s ≠ CLOSED.

Global Instance alive_dec s : Decision (alive s).
Proof. unfold alive. apply _. Defined.

Definition live_sockets (w : World) : list WebSocket :=
  filter alive (sockets w).

Definition open_sockets (w : World) : list WebSocket :=
  filter (λ s, readyState s = OPEN) (sockets w).

(** No more than one socket not yet closed or timer pending. *)
Definition at_most_one_in_flight (w : World) : Prop :=
  length (live_sockets w) + length (timers w) ≤ 1.

(** The invariant of a run with one [groupId]: at most one socket or
    timer in flight, and none before the component mounts. *)
Definition settled_chain (w : World) : Prop :=
  at_most_one_in_flight w ∧ (phase w = Fresh → sockets w = [] ∧ timers w = []).

(** The handle names a socket that is not closed yet. *)
Definition handle_alive (w : World) : Prop :=
  ∀ h, wsRef w = Some h → ∃ s, sockets w !! h = Some s ∧ alive s.

(** What a mounted component in state [connected] has in its handle is
    an open socket. *)
Definition connected_handle_open (w : World) : Prop :=
  is_active w = true → connectionStatus w = connected →
  ∀ h, wsRef w = Some h → is_open h w.

(** Traces in which [groupId] never changes. *)
Definition one_activation (evs : list Event) : Prop :=
  ∀ g, Rerender g ∉ evs.

(** Every socket that is not closed is the one the handle names. *)
Definition alive_is_handle (w : World) : Prop :=
  ∀ h s, sockets w !! h = Some s → alive s → wsRef w = Some h.

(** A mounted component in state [connected] has a handle. *)
Definition connected_has_handle (w : World) : Prop :=
  is_active w = true → connectionStatus w = connected → is_Some (wsRef w).


(** Traces without a successful history response. *)
Definition no_history (evs : list Event) : Prop :=
  ∀ i data, FetchSettled i (ResponseOk data) ∉ evs.

(** Nothing in flight after the component has mounted: every socket is
    closed and no timer is pending. *)
Definition quiet (w : World) : Prop :=
  live_sockets w = [] ∧ timers w = [] ∧ phase w ≠ Fresh.

(** Two states of a socket that differ at most in [readyState]. *)
Definition same_wire (s s' : WebSocket) : Prop :=
  ws_group s' = ws_group s ∧ ws_token s' = ws_token s ∧ ws_sent s' = ws_sent s.

(** Sample data. *)
Definition alice : User := {| name := js "alice"; profile_picture := None |}.

Definition msg (i : Z) (text : string) : Message :=
  {| id := i; content := js text; user_id := 7;
     created_at := js "2024-01-01T00:00:00Z"; user := alice |}.

Definition signed_in : World := init (Some (js "secret")).

(** ** Properties *)

Ltac unfold_callbacks :=
  unfold effect, reconnect, cleanup, connectWebSocket, fetchInitialMessages,
    fetchInitialMessages_resume, onopen, onerror, onclose, handleSendMessage,
    ws_send, ws_close, new_WebSocket, setTimeout, clearTimeout,
    localStorage_getItem in *.

Ltac by_cases := unfold_callbacks; simpl; repeat case_match; simplify_eq/=; eauto.

Section message_list.

Implicit Types (m newMsg : Message) (prev l ms : list Message) (w : World).

Lemma some_id_iff newMsg prev :
  existsb (λ m, id m =? id newMsg)%Z prev = true ↔ id newMsg ∈ id <$> prev.
Proof.
  rewrite existsb_exists, list_elem_of_fmap. split.
  - intros (m & Hin & Heq). exists m. split; [lia|]. by apply list_elem_of_In.
  - intros (m & Heq & Hin). exists m. split; [by apply list_elem_of_In|lia].
Qed.

Lemma onmessage_update_known newMsg prev :
  id newMsg ∈ id <$> prev → onmessage_update newMsg prev = prev.
Proof.
  intros H. unfold onmessage_update.
  by rewrite (proj2 (some_id_iff newMsg prev) H).
Qed.

Lemma onmessage_update_new newMsg prev :
  id newMsg ∉ id <$> prev → onmessage_update newMsg prev = prev ++ [newMsg].
Proof.
  intros H. unfold onmessage_update.
  destruct (existsb _ prev) eqn:E; [|done].
  by apply some_id_iff in E.
Qed.


Lemma deliver_snoc ms m prev :
  deliver (ms ++ [m]) prev = onmessage_update m (deliver ms prev).
Proof. unfold deliver. by rewrite foldl_app. Qed.




Lemma entry_app i l1 l2 :
  entry i (l1 ++ l2) = match entry i l1 with
                       | Some m => Some m
                       | None => entry i l2
                       end.
Proof.
  unfold entry. induction l1 as [|m l1 IH]; [done|]. simpl.
  by destruct (id m =? i)%Z.
Qed.

Lemma entry_None i l : i ∉ id <$> l → entry i l = None.
Proof.
  unfold entry. induction l as [|m l IH]; [done|]. simpl.
  intros Hnin. apply not_elem_of_cons in Hnin as [Hne Hnin].
  destruct (id m =? i)%Z eqn:E; [lia|]. by apply IH.
Qed.

Lemma entry_is_Some i l : i ∈ id <$> l → is_Some (entry i l).
Proof.
  unfold entry. induction l as [|m l IH]; [by intros ?%elem_of_nil|]. simpl.
  intros [Heq|Hin]%elem_of_cons; destruct (id m =? i)%Z eqn:E; eauto; lia.
Qed.

Lemma entry_onmessage_update i newMsg prev :
  entry i (onmessage_update newMsg prev) = entry i (prev ++ [newMsg]).
Proof.
  destruct (decide (id newMsg ∈ id <$> prev)) as [Hin|Hnin].
  - rewrite onmessage_update_known, entry_app by done.
    destruct (entry i prev) eqn:E; [done|]. simpl.
    destruct (id newMsg =? i)%Z eqn:E'; [|done].
    assert (id newMsg = i) as Hi by lia. rewrite Hi in Hin.
    apply entry_is_Some in Hin as [? Hin]. congruence.
  - by rewrite onmessage_update_new.
Qed.

Lemma entry_deliver i ms prev :
  entry i (deliver ms prev) = entry i (prev ++ ms).
Proof.
  induction ms as [|m ms IH] using rev_ind; [by rewrite app_nil_r|].
  rewrite deliver_snoc, entry_onmessage_update, app_assoc, !entry_app.
  by rewrite IH, entry_app.
Qed.

End message_list.

(** *** What each callback does to the message list *)

Section frames.

Implicit Types (w : World) (e : Event) (g : Z).

Lemma messages_connectWebSocket g w :
  messages (connectWebSocket g w) = messages w.
Proof. by_cases. Qed.

Lemma messages_cleanup w : messages (cleanup w) = messages w.
Proof. by_cases. Qed.

Lemma messages_effect g w : messages (effect g w) = messages w.
Proof. unfold effect. by rewrite messages_connectWebSocket. Qed.

Lemma messages_handleSendMessage w w' :
  handleSendMessage w = Ok w' → messages w' = messages w.
Proof. intros H. by_cases. Qed.

Lemma step_messages w e :
  messages (step w e) = messages w
  ∨ (∃ i data, e = FetchSettled i (ResponseOk data) ∧ messages (step w e) = data)
  ∨ (∃ h newMsg, e = WsMessage h (Parsed newMsg)
       ∧ messages (step w e) = onmessage_update newMsg (messages w)).
Proof.
  unfold step. destruct (enabled w e); [|by left].
  destruct e as [g|g| |v| |tok|i o|h|h data|h|h|t]; simpl.
  - left. by rewrite messages_effect.
  - left. destruct (phase w); [done| |done]. case_bool_decide; [done|].
    rewrite messages_effect. apply messages_cleanup.
  - left. apply messages_cleanup.
  - by left.
  - left. destruct (handleSendMessage w) eqn:E; [|done].
    by apply messages_handleSendMessage.
  - by left.
  - destruct o; simpl; [right; left; eauto|by left..].
  - left. by_cases.
  - destruct data; simpl; [right; right; eauto|by left].
  - by left.
  - left. destruct (sockets w !! h); [|done]. by_cases.
  - left. destruct (list_find _ _) as [[? x]|]; [|done].
    unfold reconnect. rewrite messages_connectWebSocket. by_cases.
Qed.

End frames.

(** *** Live delivery and history replacement *)

Section delivery.

Implicit Types (w : World) (h : nat) (m newMsg : Message) (ms : list Message).

Lemma setMessages_same w : setMessages (λ prev, prev) w = w.
Proof. by destruct w. Qed.

Lemma is_open_enabled h w data : is_open h w → enabled w (WsMessage h data) = true.
Proof.
  intros (s & Hs & Hr). unfold enabled, socket_in. rewrite Hs, Hr.
  by apply bool_decide_eq_true_2.
Qed.

Lemma step_live h w newMsg :
  is_open h w →
  step w (WsMessage h (Parsed newMsg)) = setMessages (onmessage_update newMsg) w.
Proof. intros Ho. unfold step. by rewrite (is_open_enabled _ _ _ Ho). Qed.

Lemma run_live h ms w :
  is_open h w → run (live h ms) w = setMessages (deliver ms) w.
Proof.
  revert w. induction ms as [|m ms IH]; intros w Ho.
  - apply eq_sym, setMessages_same.
  - change (run (live h (m :: ms)) w)
      with (run (live h ms) (step w (WsMessage h (Parsed m)))).
    rewrite step_live by done. by rewrite IH.
Qed.


End delivery.

(** *** The history request *)

Lemma fetches_connectWebSocket g w :
  fetches (connectWebSocket g w) = fetches w.
Proof. by_cases. Qed.

Lemma fetches_cleanup w : fetches (cleanup w) = fetches w.
Proof. by_cases. Qed.

Lemma fetches_effect g w :
  fetches (effect g w)
  = fetches w ++ [{| fetch_group := g; fetch_bearer := token w;
                     fetch_settled := false |}].
Proof. unfold effect. by rewrite fetches_connectWebSocket. Qed.

Lemma step_fetches w e :
  length (fetches (step w e))
  = length (fetches w) + (if activates w e then 1 else 0).
Proof.
  unfold step. destruct (enabled w e) eqn:En.
  - destruct e as [g|g| |v| |tok|i o|h|h data|h|h|t];
      unfold activates, is_active in *; simpl in *.
    + destruct (phase w); try done.
      rewrite fetches_effect, length_app. simpl. lia.
    + destruct (phase w) as [|g0|]; try done.
      repeat case_bool_decide; try done; try lia.
      rewrite fetches_effect, length_app. simpl.
      by rewrite fetches_cleanup.
    + rewrite fetches_cleanup. lia.
    + lia.
    + destruct (handleSendMessage w) as [w'|] eqn:E; [|lia].
      assert (fetches w' = fetches w) as -> by by_cases. lia.
    + lia.
    + assert (fetches (fetchInitialMessages_resume o (set_fetches (alter settle i) w))
              = alter settle i (fetches w)) as -> by by destruct o.
      rewrite length_alter. lia.
    + match goal with |- context [onopen ?x] =>
        assert (fetches (onopen x) = fetches w) as -> by by_cases end. lia.
    + destruct data; simpl; lia.
    + lia.
    + destruct (sockets w !! h); simpl; lia.
    + destruct (list_find _ _) as [[? x]|]; [|lia].
      unfold reconnect. rewrite fetches_connectWebSocket. simpl. lia.
  - assert (activates w e = false) as ->; [|lia].
    destruct e; simpl in *; unfold activates, is_active in *;
      destruct (phase w); done.
Qed.

(** *** Sending *)

Lemma falsy_nil (s : jsstring) : falsy s = true ↔ s = [].
Proof. by destruct s. Qed.

Lemma trimStart_white (s : jsstring) :
  forallb isWhiteSpace (trimStart s) = forallb isWhiteSpace s.
Proof.
  induction s as [|c s IH]; [done|]. simpl.
  destruct (isWhiteSpace c) eqn:E; [done|]. simpl. by rewrite E.
Qed.

Lemma trimStart_nil (s : jsstring) :
  trimStart s = [] ↔ forallb isWhiteSpace s = true.
Proof.
  induction s as [|c s IH]; [done|]. simpl.
  destruct (isWhiteSpace c); [done|]. split; discriminate.
Qed.

Lemma forallb_reverse (f : N → bool) (s : jsstring) :
  forallb f (reverse s) = true ↔ forallb f s = true.
Proof.
  rewrite !forallb_forall. split; intros H x Hx; apply H;
    apply list_elem_of_In; apply list_elem_of_In in Hx;
    by apply elem_of_reverse.
Qed.

(** The body is empty after trimming exactly when it consists of white
    space only. *)
Lemma trim_empty (s : jsstring) :
  falsy (trim s) = true ↔ forallb isWhiteSpace s = true.
Proof.
  rewrite falsy_nil. unfold trim, trimEnd.
  rewrite <- trimStart_white, <- forallb_reverse, <- trimStart_nil.
  split; [|by intros ->].
  intros H. apply (f_equal reverse) in H. by rewrite reverse_involutive in H.
Qed.

(** *** Sockets and timers in flight *)

Section in_flight.

Implicit Types (w : World) (s : WebSocket) (l : list WebSocket) (h : nat).

Lemma live_alter_same (f : WebSocket → WebSocket) h l :
  (∀ s, alive (f s) ↔ alive s) →
  length (filter alive (alter f h l)) = length (filter alive l).
Proof.
  intros Hf. revert h. induction l as [|s l IH]; intros [|h]; try done; simpl.
  - rewrite !filter_cons. destruct (decide (alive s)) as [Hs|Hs];
      destruct (decide (alive (f s))) as [Hfs|Hfs]; try done.
    + destruct Hfs. by apply Hf.
    + destruct Hs. by apply Hf.
  - rewrite !filter_cons. destruct (decide (alive s)); simpl;
      [exact (f_equal S (IH h))|exact (IH h)].
Qed.

Lemma live_alter_closed h l s :
  l !! h = Some s → alive s →
  S (length (filter alive (alter (with_readyState CLOSED) h l)))
  = length (filter alive l).
Proof.
  revert h. induction l as [|s' l IH]; intros [|h] Hl Hs; try done; simpl in *.
  - simplify_eq. rewrite !filter_cons.
    destruct (decide (alive s)); [|done].
    destruct (decide (alive (with_readyState CLOSED s))) as [Hc|_]; [|done].
    by destruct Hc.
  - specialize (IH h Hl Hs). rewrite !filter_cons.
    destruct (decide (alive s')); simpl; [exact (f_equal S IH)|exact IH].
Qed.

Lemma close_socket_alive s : alive (close_socket s) ↔ alive s.
Proof. unfold alive, close_socket. by destruct (readyState s) eqn:E; simpl; rewrite ?E. Qed.

Lemma live_ws_close h w :
  length (live_sockets (ws_close h w)) = length (live_sockets w).
Proof. apply live_alter_same, close_socket_alive. Qed.

Lemma length_clearTimeout t w :
  length (timers (clearTimeout t w)) ≤ length (timers w).
Proof. apply length_filter. Qed.

Lemma length_timer_fired t w :
  t ∈ timer_id <$> timers w →
  length (timers (clearTimeout t w)) < length (timers w).
Proof.
  simpl. intros (x & -> & Hx)%list_elem_of_fmap.
  induction (timers w) as [|y ts IH]; [by apply elem_of_nil in Hx|].
  rewrite filter_cons. apply elem_of_cons in Hx as [<-|Hx].
  - destruct (decide (timer_id x ≠ timer_id x)); [done|].
    pose proof (length_filter (λ z, timer_id z ≠ timer_id x) ts). simpl. lia.
  - specialize (IH Hx). destruct (decide _); simpl; lia.
Qed.

Lemma connectWebSocket_in_flight g w :
  length (live_sockets (connectWebSocket g w)) ≤ S (length (live_sockets w))
  ∧ timers (connectWebSocket g w) = timers w
  ∧ phase (connectWebSocket g w) = phase w.
Proof.
  unfold connectWebSocket, localStorage_getItem.
  destruct (token w) as [[|c tok]|]; simpl; [by auto..| |by auto].
  unfold live_sockets. simpl. rewrite list.filter_app, length_app, filter_cons. simpl.
  destruct (wsRef w) as [h|]; simpl.
  - rewrite (live_alter_same _ _ _ close_socket_alive). split; [lia|done].
  - split; [lia|done].
Qed.

Lemma cleanup_in_flight w :
  length (live_sockets (cleanup w)) = length (live_sockets w)
  ∧ length (timers (cleanup w)) ≤ length (timers w).
Proof.
  unfold cleanup.
  assert (∀ x, length (live_sockets (match wsRef x with
                                     | Some h => ws_close h x
                                     | None => x
                                     end)) = length (live_sockets x)) as Hc.
  { intros x. destruct (wsRef x); [apply live_ws_close|done]. }
  destruct (reconnectTimeoutRef _) as [t|] eqn:E.
  - split; [apply Hc|].
    etrans; [apply length_clearTimeout|]. by destruct (wsRef w).
  - split; [apply Hc|]. by destruct (wsRef w).
Qed.

Lemma step_settled_chain w e :
  (∀ g, e ≠ Rerender g) → settled_chain w → settled_chain (step w e).
Proof.
  intros Hre [Hone Hfresh]. unfold step.
  destruct (enabled w e) eqn:En; [|done].
  unfold settled_chain, at_most_one_in_flight in *.
  destruct e as [g|g| |v| |tok|i o|h|h data|h|h|t]; simpl in *.
  - destruct (phase w) eqn:Hp; try done. destruct (Hfresh eq_refl) as [Hs Ht].
    unfold effect.
    destruct (connectWebSocket_in_flight g
                (fetchInitialMessages g (set_phase (Active g) w)))
      as (Hl & -> & ->).
    unfold live_sockets in *. simpl in *. rewrite Hs, Ht in *. simpl in *.
    split; [lia|done].
  - by destruct (Hre g).
  - destruct (cleanup_in_flight w) as [Hl Ht].
    unfold live_sockets in *. simpl. split; [lia|done].
  - unfold is_active in En. split; [done|]. intros Hp. by rewrite Hp in En.
  - unfold is_active in En.
    destruct (handleSendMessage w) as [w'|] eqn:E;
      [|split; [done|]; intros Hp; by rewrite Hp in En].
    assert (length (live_sockets w') = length (live_sockets w)
            ∧ timers w' = timers w ∧ phase w' = phase w) as (-> & -> & ->).
    { unfold handleSendMessage, ws_send in E.
      repeat case_match; simplify_eq/=; try done.
      split; [|done]. apply live_alter_same. done. }
    split; [done|]. intros Hp. by rewrite Hp in En.
  - done.
  - destruct o; simpl; split; try done.
  - unfold socket_in in En. destruct (sockets w !! h) as [s|] eqn:Hs; [|done].
    apply bool_decide_eq_true_1 in En.
    assert (length (filter alive (alter (with_readyState OPEN) h (sockets w)))
            = length (live_sockets w)) as Hl.
    { clear -Hs En. revert h Hs.
      unfold live_sockets. induction (sockets w) as [|s' l IH]; intros [|h] Hs;
        try done; simpl in *; rewrite !filter_cons.
      - simplify_eq. destruct (decide (alive s)) as [|Hn];
          [|by (destruct Hn; unfold alive; rewrite En)].
        by destruct (decide (alive (with_readyState OPEN s))) as [|[]].
      - specialize (IH h Hs).
        destruct (decide (alive s')); simpl; [exact (f_equal S IH)|exact IH]. }
    unfold onopen. simpl. destruct (reconnectTimeoutRef w) as [t|]; simpl.
    + pose proof (length_filter (λ x, timer_id x ≠ t) (timers w)).
      unfold live_sockets at 1. simpl. rewrite Hl. split; [lia|].
      intros Hp. destruct (Hfresh Hp) as [Hs' _]. by rewrite Hs' in Hs.
    + unfold live_sockets at 1. simpl. rewrite Hl. split; [lia|].
      intros Hp. destruct (Hfresh Hp) as [Hs' _]. by rewrite Hs' in Hs.
  - destruct data; simpl; done.
  - done.
  - unfold socket_in in En. destruct (sockets w !! h) as [s|] eqn:Hs; [|done].
    apply bool_decide_eq_true_1 in En.
    pose proof (live_alter_closed h (sockets w) s Hs En) as Hl.
    unfold onclose, live_sockets in *. simpl. rewrite length_app. simpl.
    split; [lia|]. intros Hp. destruct (Hfresh Hp) as [Hs' _]. by rewrite Hs' in Hs.
  - apply bool_decide_eq_true_1 in En.
    destruct (list_find _ _) as [[? x]|]; [|done].
    pose proof (length_timer_fired t w En) as Hlt.
    unfold reconnect.
    destruct (connectWebSocket_in_flight (timer_group x)
                (console_log AttemptingToReconnect (clearTimeout t w)))
      as (Hl & -> & ->).
    unfold live_sockets in *. simpl in *. split; [lia|].
    intros Hp. destruct (Hfresh Hp) as [_ Ht]. rewrite Ht in En.
    by apply elem_of_nil in En.
Qed.

Lemma alive_lookup_pos l h s :
  l !! h = Some s → alive s → 0 < length (filter alive l).
Proof.
  intros Hl Hs. assert (s ∈ filter alive l) as Hin.
  { apply list_elem_of_filter. split; [done|]. by eapply list_elem_of_lookup_2. }
  destruct (filter alive l); [by apply elem_of_nil in Hin|simpl; lia].
Qed.

Lemma alive_unique l i j s s' :
  length (filter alive l) ≤ 1 →
  l !! i = Some s → alive s → l !! j = Some s' → alive s' → i = j.
Proof.
  revert i j. induction l as [|x l IH]; intros [|i] [|j] Hlen Hi Hs Hj Hs';
    try done; simpl in *; rewrite filter_cons in Hlen.
  - simplify_eq. destruct (decide (alive s)); [|done].
    pose proof (alive_lookup_pos l j s' Hj Hs'). simpl in Hlen. lia.
  - simplify_eq. destruct (decide (alive s')); [|done].
    pose proof (alive_lookup_pos l i s Hi Hs). simpl in Hlen. lia.
  - f_equal. apply (IH i j); try done.
    destruct (decide (alive x)); simpl in Hlen; lia.
Qed.

Lemma connectWebSocket_handle g w :
  handle_alive w →
  handle_alive (connectWebSocket g w)
  ∧ connectionStatus (connectWebSocket g w) ≠ connected.
Proof.
  intros Hw. unfold connectWebSocket, localStorage_getItem.
  destruct (token w) as [[|c tok]|]; simpl; [done| |done].
  split; [|done]. intros h. simpl. intros [= <-].
  eexists. split; [by apply list_lookup_middle|done].
Qed.

Lemma cleanup_handle w :
  wsRef (cleanup w) = wsRef w
  ∧ sockets (cleanup w) = match wsRef w with
                          | Some h => alter close_socket h (sockets w)
                          | None => sockets w
                          end.
Proof.
  unfold cleanup. destruct (wsRef w) eqn:E; simpl;
    destruct (reconnectTimeoutRef w); simpl; by rewrite ?E.
Qed.

Lemma step_handle w e :
  (∀ g, e ≠ Rerender g) → settled_chain w →
  handle_alive w ∧ connected_handle_open w →
  handle_alive (step w e) ∧ connected_handle_open (step w e).
Proof.
  intros Hre [Hone _] [Hh Hc]. unfold step.
  destruct (enabled w e) eqn:En; [|done].
  destruct e as [g|g| |v| |tok|i o|h|h data|h|h|t]; simpl in *.
  - destruct (connectWebSocket_handle g
                (fetchInitialMessages g (set_phase (Active g) w)) Hh) as [H1 H2].
    split; [exact H1|]. by intros _ ?.
  - by destruct (Hre g).
  - split; [|by intros ?].
    intros h Hh'. simpl in *.
    destruct (cleanup_handle w) as [Hr Hso]. rewrite Hr in Hh'.
    destruct (Hh h Hh') as (s & Hs & Ha).
    exists (close_socket s). split; [|by apply close_socket_alive].
    by rewrite Hso, Hh', list_lookup_alter_eq, Hs.
  - done.
  - destruct (handleSendMessage w) as [w'|] eqn:E; [|done].
    unfold handleSendMessage, ws_send in E.
    destruct (falsy _); [by simplify_eq|].
    destruct (wsRef w) as [n|] eqn:Hn; [|by simplify_eq].
    destruct (connectionStatus w) eqn:Hst; try by simplify_eq.
    destruct (sockets w !! n) as [s0|] eqn:Hs0; [|by simplify_eq].
    destruct (readyState s0) eqn:Hr; simplify_eq; try done.
    assert (alter (with_frame (JObject [("content"%string, JString (newMessage w))]))
              n (sockets w) !! n
            = Some (with_frame (JObject [("content"%string, JString (newMessage w))]) s0))
      as Hl by (by rewrite list_lookup_alter_eq, Hs0).
    split.
    + intros h Hh'. simpl in Hh'. rewrite Hn in Hh'. simplify_eq.
      eexists. split; [exact Hl|]. unfold alive. simpl. by rewrite Hr.
    + intros _ _ h Hh'. simpl in Hh'. rewrite Hn in Hh'. simplify_eq.
      eexists. split; [exact Hl|]. done.
  - done.
  - destruct o; simpl; done.
  - unfold socket_in in En. destruct (sockets w !! h) as [s|] eqn:Hs; [|done].
    apply bool_decide_eq_true_1 in En.
    assert (∀ k, wsRef w = Some k → k = h) as Hk.
    { intros k Hk. destruct (Hh k Hk) as (s' & Hs' & Ha').
      eapply (alive_unique (sockets w) k h); try done.
      - unfold at_most_one_in_flight, live_sockets in Hone. lia.
      - unfold alive. by rewrite En. }
    assert (wsRef (onopen (set_sockets (alter (with_readyState OPEN) h) w))
            = wsRef w) as Hw.
    { unfold onopen. simpl. by destruct (reconnectTimeoutRef w). }
    assert (sockets (onopen (set_sockets (alter (with_readyState OPEN) h) w))
            = alter (with_readyState OPEN) h (sockets w)) as Hso.
    { unfold onopen. simpl. by destruct (reconnectTimeoutRef w). }
    split.
    + intros k Hk'. rewrite Hw in Hk'. rewrite Hso, (Hk k Hk').
      rewrite list_lookup_alter_eq, Hs. by eexists.
    + intros _ _ k Hk'. rewrite Hw in Hk'. unfold is_open.
      rewrite Hso, (Hk k Hk'), list_lookup_alter_eq, Hs. by eexists.
  - destruct data; simpl; done.
  - split; [done|]. by intros _ ?.
  - destruct (sockets w !! h); [|done]. split; [by intros ?|by intros _ ?].
  - destruct (list_find _ _) as [[? x]|]; [|done].
    destruct (connectWebSocket_handle (timer_group x)
                (console_log AttemptingToReconnect (clearTimeout t w)) Hh)
      as [H1 H2].
    split; [exact H1|]. by intros _ ?.
Qed.

Lemma run_settled_chain evs w :
  one_activation evs → settled_chain w → settled_chain (run evs w).
Proof.
  revert w. induction evs as [|e evs IH]; intros w Hev Hw; [done|].
  change (run (e :: evs) w) with (run evs (step w e)). apply IH.
  - intros g Hg. apply (Hev g). by right.
  - apply step_settled_chain; [|done]. intros g ->. apply (Hev g). left.
Qed.

Lemma init_settled_chain tok : settled_chain (init tok).
Proof. split; [unfold at_most_one_in_flight; simpl; lia|done]. Qed.

Lemma run_handle evs w :
  one_activation evs → settled_chain w →
  handle_alive w ∧ connected_handle_open w →
  handle_alive (run evs w) ∧ connected_handle_open (run evs w).
Proof.
  revert w. induction evs as [|e evs IH]; intros w Hev Hw Hh; [done|].
  change (run (e :: evs) w) with (run evs (step w e)).
  assert (∀ g, e ≠ Rerender g) as He by (intros g ->; apply (Hev g); left).
  apply IH.
  - intros g Hg. apply (Hev g). by right.
  - by apply step_settled_chain.
  - by apply step_handle.
Qed.


End in_flight.

(** *** Connection life cycle *)

Lemma onclose_effect g w :
  connectionStatus (onclose g w) = disconnected
  ∧ wsRef (onclose g w) = None
  ∧ reconnectTimeoutRef (onclose g w) = Some (next_timer w)
  ∧ timers (onclose g w)
    = timers w ++ [{| timer_id := next_timer w; timer_delay := 3000;
                      timer_group := g |}]
  ∧ sockets (onclose g w) = sockets w.
Proof. done. Qed.

Lemma onopen_effect w :
  connectionStatus (onopen w) = connected
  ∧ reconnectTimeoutRef (onopen w) = None
  ∧ (∀ t, reconnectTimeoutRef w = Some t → t ∉ timer_id <$> timers (onopen w))
  ∧ sockets (onopen w) = sockets w.
Proof.
  unfold onopen. simpl. destruct (reconnectTimeoutRef w) as [t|] eqn:E; simpl.
  - repeat split; try done. intros ? [= <-] (x & Hx & Hin)%list_elem_of_fmap.
    apply list_elem_of_filter in Hin as [Hne _]. by destruct Hne.
  - by repeat split.
Qed.

Lemma connectWebSocket_effect g w tok c :
  token w = Some (c :: tok) →
  connectionStatus (connectWebSocket g w) = connecting
  ∧ wsRef (connectWebSocket g w) = Some (length (sockets w))
  ∧ sockets (connectWebSocket g w)
    = match wsRef w with
      | Some h => alter close_socket h (sockets w)
      | None => sockets w
      end ++ [{| ws_group := g; ws_token := c :: tok;
                 readyState := CONNECTING; ws_sent := [] |}].
Proof.
  intros Htok. unfold connectWebSocket, localStorage_getItem. rewrite Htok.
  destruct (wsRef w); simpl; by rewrite ?length_alter.
Qed.

Lemma cleanup_effect w :
  sockets (cleanup w)
  = match wsRef w with
    | Some h => alter close_socket h (sockets w)
    | None => sockets w
    end
  ∧ (∀ t, reconnectTimeoutRef w = Some t → t ∉ timer_id <$> timers (cleanup w)).
Proof.
  unfold cleanup.
  assert (∀ x : World, reconnectTimeoutRef
            (match wsRef x with Some h => ws_close h x | None => x end)
          = reconnectTimeoutRef x) as Hr by (intros x; by destruct (wsRef x)).
  split.
  - destruct (reconnectTimeoutRef _); by destruct (wsRef w).
  - intros t Ht. rewrite Hr, Ht. simpl.
    intros (x & Hx & Hin)%list_elem_of_fmap.
    apply list_elem_of_filter in Hin as [Hne _]. by destruct Hne.
Qed.

(** With one [groupId] throughout, at most one socket or reconnection
    timer is in flight at any time. *)
Lemma one_activation_in_flight tok evs :
  one_activation evs → at_most_one_in_flight (run evs (init tok)).
Proof.
  intros Hev. by apply run_settled_chain; [|apply init_settled_chain].
Qed.

(** After a change of [groupId] the send guard can pass while the handle
    names a socket that is still connecting; [send] then throws. *)
Lemma send_on_connecting_socket_throws :
  let w := run [Mount 1; Rerender 2; WsClose 0; TimerFire 1; WsOpen 1;
                Change (js "hi")] signed_in in
  connectionStatus w = connected
  ∧ wsRef w = Some 2
  ∧ readyState <$> sockets w = [CLOSED; OPEN; CONNECTING]
  ∧ handleSendMessage w = Throw InvalidStateError.
Proof. by vm_compute. Qed.

(** ** The claims *)







(** C3, the code at the failing traces. The close handler adds its
    timer to the pending ones and cancels none. After a render with a
    new [groupId] the old and the new socket both close, and two
    reconnection timers are pending at once, the handle naming the
    second only; after a change of [groupId] and back, both pending
    timers reconnect to the same group. *)
Theorem C3_close_leaves_earlier_timer_pending :
  (∀ g w, timers (onclose g w)
          = timers w ++ [{| timer_id := next_timer w; timer_delay := 3000;
                            timer_group := g |}])
  ∧ (let w := run [Mount 1; Rerender 2; WsClose 0; WsClose 1] signed_in in
     timers w = [{| timer_id := 1; timer_delay := 3000; timer_group := 1 |};
                 {| timer_id := 2; timer_delay := 3000; timer_group := 2 |}]
     ∧ reconnectTimeoutRef w = Some 2
     ∧ connectionStatus w = disconnected
     ∧ wsRef w = None)
  ∧ (let w := run [Mount 1; Rerender 2; Rerender 1; WsClose 0; WsClose 2]
                  signed_in in
     timers w = [{| timer_id := 1; timer_delay := 3000; timer_group := 1 |};
                 {| timer_id := 2; timer_delay := 3000; timer_group := 1 |}]
     ∧ reconnectTimeoutRef w = Some 2).
Proof. split; [done|]. by vm_compute. Qed.

(** C4, the code at the failing trace. Cleanup starts closing the open
    socket and leaves no timer pending; the close event that follows
    still runs the close handler, whose timer then fires and opens a new
    socket for the component that is gone. *)
Theorem C4_reconnects_after_cleanup :
  let w := run [Mount 42; WsOpen 0; Unmount] signed_in in
  phase w = Gone
  ∧ readyState <$> sockets w = [CLOSING]
  ∧ timers w = []
  ∧ timer_id <$> timers (step w (WsClose 0)) = [1]
  ∧ let w' := run [WsClose 0; TimerFire 1] w in
    readyState <$> sockets w' = [CLOSED; CONNECTING]
    ∧ wsRef w' = Some 1
    ∧ phase w' = Gone.
Proof. by vm_compute. Qed.

(** C5. With no token in storage, or an empty one, [connectWebSocket]
    sets the state to [error] and touches neither the sockets, nor the
    connection handle, nor the timers; activating the component in that
    situation ends normally, in state [error], with no socket created. *)
Theorem C5_missing_token_no_connection :
  ∀ tok, absent_or_empty tok →
    (∀ g w, token w = tok →
       connectionStatus (connectWebSocket g w) = error
       ∧ sockets (connectWebSocket g w) = sockets w
       ∧ wsRef (connectWebSocket g w) = wsRef w
       ∧ timers (connectWebSocket g w) = timers w)
    ∧ (∀ g, ∃ w', dispatch (Mount g) (init tok) = Ok w'
         ∧ step (init tok) (Mount g) = w'
         ∧ connectionStatus w' = error
         ∧ sockets w' = [] ∧ wsRef w' = None ∧ timers w' = []).
Proof.
  intros tok Htok. split.
  - intros g w Hw. unfold connectWebSocket, localStorage_getItem.
    rewrite Hw. by destruct Htok as [-> | ->].
  - intros g. eexists. split; [done|]. by destruct Htok as [-> | ->].
Qed.

Lemma C5_missing_token_witness :
  connectionStatus (step (init None) (Mount 42)) = error
  ∧ sockets (step (init None) (Mount 42)) = []
  ∧ connectionStatus (step (init (Some [])) (Mount 42)) = error
  ∧ sockets (step (init (Some [])) (Mount 42)) = [].
Proof.
  destruct (proj2 (C5_missing_token_no_connection None (or_introl eq_refl)) 42%Z)
    as (w1 & _ & <- & H1 & H2 & _).
  destruct (proj2 (C5_missing_token_no_connection (Some []) (or_intror eq_refl)) 42%Z)
    as (w2 & _ & <- & H3 & H4 & _).
  exact (conj H1 (conj H2 (conj H3 H4))).
Defined.

(** C6. The history request goes out once when the effect runs (first
    mount, or a render with another [groupId]) and at no other event, so
    it is never retried; a successful response replaces the message list
    by the sequence it carries; a failed request (response without [ok],
    unreadable body, network error) leaves the list as it is; and in
    every case the event ends normally. *)
Theorem C6_history_fetch_once_replace_or_keep :
  (∀ w e, length (fetches (step w e))
          = length (fetches w) + (if activates w e then 1 else 0))
  ∧ (∀ w g, activates w (Mount g) = true →
       fetches (step w (Mount g))
       = fetches w ++ [{| fetch_group := g; fetch_bearer := token w;
                          fetch_settled := false |}])
  ∧ (∀ w data, messages (fetchInitialMessages_resume (ResponseOk data) w) = data)
  ∧ (∀ w, messages (fetchInitialMessages_resume ResponseOkBadBody w) = messages w)
  ∧ (∀ w status, messages (fetchInitialMessages_resume (ResponseNotOk status) w) = messages w)
  ∧ (∀ w, messages (fetchInitialMessages_resume NetworkError w) = messages w)
  ∧ (∀ w i o, dispatch (FetchSettled i o) w
       = Ok (fetchInitialMessages_resume o (set_fetches (alter settle i) w))).
Proof.
  repeat split; try done.
  - apply step_fetches.
  - intros w g. unfold activates, step, enabled. simpl.
    destruct (phase w); [|done..]. intros _. by rewrite fetches_effect.
Qed.

Lemma C6_history_fetch_witness :
  fetches (step signed_in (Mount 42))
  = [{| fetch_group := 42; fetch_bearer := Some (js "secret");
        fetch_settled := false |}].
Proof.
  exact (proj1 (proj2 C6_history_fetch_once_replace_or_keep) signed_in 42%Z eq_refl).
Defined.

(** C7. A send with a body that is empty after trimming, or in a state
    other than [connected], or without a connection handle, ends
    normally and leaves the whole world (component state, refs, every
    socket and the frames it has sent) exactly as it was. *)
Theorem C7_gated_send_is_a_no_op :
  ∀ w, falsy (trim (newMessage w)) = true
       ∨ connectionStatus w ≠ connected
       ∨ wsRef w = None →
    handleSendMessage w = Ok w ∧ step w Submit = w.
Proof.
  intros w H.
  assert (handleSendMessage w = Ok w) as Hs.
  { unfold handleSendMessage. destruct H as [H|[H|H]].
    - by rewrite H.
    - by destruct (falsy _), (wsRef w), (connectionStatus w).
    - rewrite H. by destruct (falsy _). }
  split; [done|]. unfold step. rewrite (Hs : dispatch Submit w = Ok w).
  by destruct (enabled w Submit).
Qed.

Lemma C7_gated_send_witness :
  let w := run [Mount 42; WsOpen 0] signed_in in
  step (setNewMessage (js "   ") w) Submit = setNewMessage (js "   ") w
  ∧ step (run [Change (js "hi"); WsClose 0] w) Submit
    = run [Change (js "hi"); WsClose 0] w.
Proof.
  intros w. split.
  - apply (C7_gated_send_is_a_no_op (setNewMessage (js "   ") w)).
    left. reflexivity.
  - apply (C7_gated_send_is_a_no_op (run [Change (js "hi"); WsClose 0] w)).
    right. left. discriminate.
Defined.



(** C9, the code at the failing traces. After a render with a new
    [groupId], the close event of the old socket clears the handle of
    the new one, so the reconnection it schedules opens a third socket
    without closing the second: two sockets are open at once. After a
    change of [groupId] and back, the two open sockets are for the same
    group. *)
Theorem C9_two_open_connections :
  (let w := run [Mount 1; WsOpen 0; Rerender 2; WsOpen 1; WsClose 0;
                 TimerFire 1; WsOpen 2] signed_in in
   readyState <$> sockets w = [CLOSED; OPEN; OPEN]
   ∧ ws_group <$> open_sockets w = [2%Z; 1%Z]
   ∧ wsRef w = Some 2
   ∧ connectionStatus w = connected)
  ∧ (let w := run [Mount 1; Rerender 2; Rerender 1; WsOpen 2; WsClose 0;
                   TimerFire 1; WsOpen 3] signed_in in
     readyState <$> sockets w = [CLOSED; CLOSING; OPEN; OPEN]
     ∧ ws_group <$> open_sockets w = [1%Z; 1%Z]
     ∧ wsRef w = Some 3).
Proof. by vm_compute. Qed.

(** C10. Whether a live message is a duplicate is decided by its
    identifier alone: a message carrying the identifier of a stored
    entry leaves the list, and the whole world, as it was, whatever its
    content, author and timestamp; so along any run of live messages the
    entry found under an identifier is the first one received. *)
Theorem C10_duplicate_by_identifier_only :
  (∀ stored c a t u pre post,
      onmessage_update
        {| id := id stored; content := c; user_id := a; created_at := t; user := u |}
        (pre ++ stored :: post) = pre ++ stored :: post)
  ∧ (∀ w h newMsg, is_open h w → id newMsg ∈ id <$> messages w →
       step w (WsMessage h (Parsed newMsg)) = w)
  ∧ (∀ w h ms i, is_open h w →
       entry i (messages (run (live h ms) w)) = entry i (messages w ++ ms)).
Proof.
  split; [|split].
  - intros stored c a t u pre post. apply onmessage_update_known. simpl.
    rewrite fmap_app, fmap_cons. apply elem_of_app. right. left.
  - intros w h newMsg Ho Hin. rewrite step_live by done.
    destruct w. unfold setMessages. simpl in *. f_equal.
    by apply onmessage_update_known.
  - intros w h ms i Ho. rewrite run_live by done. apply entry_deliver.
Qed.

Lemma C10_duplicate_witness :
  let w := run [Mount 42; WsOpen 0; WsMessage 0 (Parsed (msg 5 "first"))] signed_in in
  step w (WsMessage 0 (Parsed (msg 5 "second"))) = w
  ∧ entry 5 (messages (run (live 0 [msg 5 "second"; msg 6 "third"]) w))
    = Some (msg 5 "first").
Proof.
  intros w.
  assert (is_open 0 w) as Ho by (eexists; split; reflexivity).
  split.
  - apply (proj1 (proj2 C10_duplicate_by_identifier_only) w 0 _ Ho).
    simpl. left.
  - rewrite (proj2 (proj2 C10_duplicate_by_identifier_only) w 0 _ 5%Z Ho).
    reflexivity.
Defined.

(** ** Further properties *)

(** *** The message list between history responses *)

Lemma step_prefix w e :
  (∀ i data, e ≠ FetchSettled i (ResponseOk data)) →
  messages w `prefix_of` messages (step w e).
Proof.
  intros He.
  destruct (step_messages w e) as [->|[(i & data & -> & _)|(h & m & -> & ->)]].
  - done.
  - by destruct (He i data).
  - unfold onmessage_update. destruct (existsb _ _); [done|].
    by apply prefix_app_r.
Qed.

Lemma step_provenance w e m :
  m ∈ messages (step w e) →
  m ∈ messages w
  ∨ (∃ h, e = WsMessage h (Parsed m))
  ∨ (∃ i data, e = FetchSettled i (ResponseOk data) ∧ m ∈ data).
Proof.
  destruct (step_messages w e) as [->|[(i & data & -> & ->)|(h & m' & -> & ->)]].
  - by left.
  - right. right. eauto.
  - unfold onmessage_update. destruct (existsb _ _); [by left|].
    intros [Hin|Hin%list_elem_of_singleton]%elem_of_app; [by left|].
    subst. right. left. eauto.
Qed.

(** X1. Between successful history responses the message list only
    grows at its end, and every message in it was already there or came
    in a live frame of the trace: nothing the user has seen is removed,
    reordered or rewritten by sending, typing, status changes, a change
    of [groupId], reconnection or a failed history request. *)
Theorem X1_list_grows_at_the_end_between_histories :
  ∀ evs w, no_history evs →
    messages w `prefix_of` messages (run evs w)
    ∧ ∀ m, m ∈ messages (run evs w) →
        m ∈ messages w ∨ ∃ h, WsMessage h (Parsed m) ∈ evs.
Proof.
  induction evs as [|e evs IH]; intros w Hev; [by split; [|left]|].
  change (run (e :: evs) w) with (run evs (step w e)).
  assert (no_history evs) as Hev' by (intros i data Hin; apply (Hev i data); by right).
  assert (∀ i data, e ≠ FetchSettled i (ResponseOk data)) as He
    by (intros i data ->; apply (Hev i data); left).
  destruct (IH (step w e) Hev') as [Hpre Hprov]. split.
  - etrans; [by apply step_prefix|done].
  - intros m Hm. destruct (Hprov m Hm) as [Hin|[h Hin]].
    + destruct (step_provenance w e m Hin) as [?|[[h ->]|(i & data & -> & _)]].
      * by left.
      * right. exists h. left.
      * by destruct (He i data).
    + right. exists h. by right.
Qed.

Lemma X1_list_grows_witness :
  let w := run [Mount 42; WsOpen 0; WsMessage 0 (Parsed (msg 1 "a"))] signed_in in
  messages w
  `prefix_of` messages (run [Change (js "x"); WsMessage 0 (Parsed (msg 2 "b"));
                             FetchSettled 0 NetworkError; WsClose 0; Rerender 7] w).
Proof.
  intros w.
  apply (X1_list_grows_at_the_end_between_histories
           [Change (js "x"); WsMessage 0 (Parsed (msg 2 "b"));
            FetchSettled 0 NetworkError; WsClose 0; Rerender 7] w).
  intros i data Hin.
  repeat (apply elem_of_cons in Hin as [Hin|Hin]; [discriminate Hin|]).
  by apply elem_of_nil in Hin.
Defined.

(** *** Reconnection timers *)

Lemma timers_connectWebSocket g w : timers (connectWebSocket g w) = timers w.
Proof. by_cases. Qed.

Lemma timers_cleanup w : timers (cleanup w) `sublist_of` timers w.
Proof.
  unfold cleanup. destruct (reconnectTimeoutRef _); destruct (wsRef w); simpl;
    try done; apply sublist_filter.
Qed.

Lemma step_timers w e :
  (∀ h, e ≠ WsClose h) → timers (step w e) `sublist_of` timers w.
Proof.
  intros He. unfold step. destruct (enabled w e); [|done].
  destruct e as [g|g| |v| |tok|i o|h|h data|h|h|t]; simpl.
  - unfold effect. by rewrite timers_connectWebSocket.
  - destruct (phase w); [done| |done]. case_bool_decide; [done|].
    unfold effect. rewrite timers_connectWebSocket. apply timers_cleanup.
  - apply timers_cleanup.
  - done.
  - destruct (handleSendMessage w) as [w'|] eqn:E; [|done].
    assert (timers w' = timers w) as -> by by_cases. done.
  - done.
  - by destruct o.
  - unfold onopen. simpl. destruct (reconnectTimeoutRef w); [|done].
    apply sublist_filter.
  - by destruct data.
  - done.
  - by destruct (He h).
  - destruct (list_find _ _) as [[? x]|]; [|done].
    unfold reconnect. rewrite timers_connectWebSocket. apply sublist_filter.
Qed.

Lemma step_close_timers w h s :
  sockets w !! h = Some s → alive s →
  timers (step w (WsClose h))
  = timers w ++ [{| timer_id := next_timer w; timer_delay := 3000;
                    timer_group := ws_group s |}].
Proof.
  intros Hs Ha. unfold step, enabled, socket_in. simpl. rewrite Hs.
  by rewrite bool_decide_eq_true_2.
Qed.

(** X2. Reconnection timers come from close events only: any other
    event (an error event included) leaves the pending timers as they
    were or cancels some; the close event of a socket adds one timer,
    for that socket's group; and every timer ever pending has a delay of
    3000 ms, so the retry interval never grows. *)
Theorem X2_timers_come_from_close_events_only :
  (∀ w e, (∀ h, e ≠ WsClose h) → timers (step w e) `sublist_of` timers w)
  ∧ (∀ w h s, sockets w !! h = Some s → alive s →
       timers (step w (WsClose h))
       = timers w ++ [{| timer_id := next_timer w; timer_delay := 3000;
                         timer_group := ws_group s |}])
  ∧ (∀ tok evs x, x ∈ timers (run evs (init tok)) → timer_delay x = 3000%Z).
Proof.
  split; [exact step_timers|]. split; [exact step_close_timers|].
  intros tok evs.
  assert (∀ w, (∀ x, x ∈ timers w → timer_delay x = 3000%Z) →
               ∀ x, x ∈ timers (run evs w) → timer_delay x = 3000%Z) as Hrun.
  { induction evs as [|e evs IH]; intros w Hw; [done|].
    change (run (e :: evs) w) with (run evs (step w e)). apply IH.
    intros x Hx. destruct e as [g|g| |v| |tok'|i o|h|h data|h|h|t];
      try (apply Hw; eapply elem_of_sublist; [exact Hx|];
           apply step_timers; intros ?; discriminate).
    unfold step in Hx. destruct (enabled w (WsClose h)); [|by apply Hw].
    simpl in Hx. destruct (sockets w !! h); [|by apply Hw]. simpl in Hx.
    apply elem_of_app in Hx as [Hx|Hx%list_elem_of_singleton]; [by apply Hw|].
    by subst. }
  apply Hrun. by intros x ?%elem_of_nil.
Qed.

Lemma X2_timers_witness :
  let w := run [Mount 42; WsOpen 0] signed_in in
  timers (step w (WsClose 0))
  = [{| timer_id := 1; timer_delay := 3000; timer_group := 42 |}]
  ∧ timers (step (step w (WsError 0)) (WsMessage 0 Malformed)) `sublist_of` [].
Proof.
  intros w. split.
  - apply (proj1 (proj2 X2_timers_come_from_close_events_only) w 0
             {| ws_group := 42; ws_token := js "secret"; readyState := OPEN;
                ws_sent := [] |} eq_refl).
    discriminate.
  - etrans.
    + apply (proj1 X2_timers_come_from_close_events_only). discriminate.
    + apply (proj1 X2_timers_come_from_close_events_only w (WsError 0)).
      discriminate.
Defined.

(** *** What goes on the wire *)

Lemma same_wire_refl s : same_wire s s.
Proof. done. Qed.

Lemma alter_same_wire (f : WebSocket → WebSocket) (h0 : nat)
    (l : list WebSocket) (h : nat) s :
  (∀ x, same_wire x (f x)) → l !! h = Some s →
  ∃ s', alter f h0 l !! h = Some s' ∧ same_wire s s'.
Proof.
  intros Hf Hs. rewrite list_lookup_alter. destruct (decide (h0 = h)) as [->|].
  - rewrite Hs. simpl. eauto.
  - eauto using same_wire_refl.
Qed.

Lemma close_socket_same_wire s : same_wire s (close_socket s).
Proof. unfold close_socket. by destruct (readyState s). Qed.

Lemma connectWebSocket_same_wire g w h s :
  sockets w !! h = Some s →
  ∃ s', sockets (connectWebSocket g w) !! h = Some s' ∧ same_wire s s'.
Proof.
  intros Hs. unfold connectWebSocket, localStorage_getItem.
  destruct (token w) as [[|c tok]|]; simpl; eauto using same_wire_refl.
  destruct (wsRef w) as [h0|]; simpl.
  - destruct (alter_same_wire close_socket h0 (sockets w) h s
                close_socket_same_wire Hs) as (s' & Hs' & Hw).
    exists s'. split; [by apply lookup_app_l_Some|done].
  - exists s. split; [by apply lookup_app_l_Some|done].
Qed.

Lemma cleanup_same_wire w h s :
  sockets w !! h = Some s →
  ∃ s', sockets (cleanup w) !! h = Some s' ∧ same_wire s s'.
Proof.
  intros Hs. destruct (cleanup_handle w) as [_ ->].
  destruct (wsRef w) as [h0|]; [|eauto using same_wire_refl].
  by apply alter_same_wire; [apply close_socket_same_wire|].
Qed.

(** X3. A socket, once created, keeps its group and token, and the only
    event that puts a frame on it is a submit: every other event leaves
    the frames it has sent as they are, and a submit adds at most the
    one frame [{content: newMessage}] to the open socket the handle
    names. *)
Theorem X3_only_submit_sends_frames :
  ∀ w e h s, sockets w !! h = Some s →
    ∃ s', sockets (step w e) !! h = Some s'
      ∧ ws_group s' = ws_group s
      ∧ ws_token s' = ws_token s
      ∧ (ws_sent s' = ws_sent s
         ∨ (e = Submit ∧ wsRef w = Some h ∧ readyState s = OPEN
            ∧ connectionStatus w = connected
            ∧ ws_sent s'
              = ws_sent s ++ [JObject [("content"%string, JString (newMessage w))]])).
Proof.
  intros w e h s Hs.
  assert (∀ w', (∃ s', sockets w' !! h = Some s' ∧ same_wire s s') →
    ∃ s', sockets w' !! h = Some s'
      ∧ ws_group s' = ws_group s ∧ ws_token s' = ws_token s
      ∧ (ws_sent s' = ws_sent s
         ∨ (e = Submit ∧ wsRef w = Some h ∧ readyState s = OPEN
            ∧ connectionStatus w = connected
            ∧ ws_sent s'
              = ws_sent s ++ [JObject [("content"%string, JString (newMessage w))]])))
    as Hsame.
  { intros w' (s' & Hs' & Hg & Ht & Hf). exists s'. auto. }
  unfold step. destruct (enabled w e); [|by apply Hsame; eauto using same_wire_refl].
  destruct e as [g|g| |v| |tok|i o|h0|h0 data|h0|h0|t]; simpl.
  - apply Hsame. unfold effect. by apply connectWebSocket_same_wire.
  - apply Hsame. destruct (phase w); eauto using same_wire_refl.
    case_bool_decide; eauto using same_wire_refl.
    destruct (cleanup_same_wire w h s Hs) as (s1 & Hs1 & Hw1).
    destruct (connectWebSocket_same_wire g
                (fetchInitialMessages g (set_phase (Active g) (cleanup w))) h s1 Hs1)
      as (s2 & Hs2 & Hw2).
    exists s2. split; [done|]. destruct Hw1 as (?&?&?), Hw2 as (?&?&?).
    repeat split; congruence.
  - apply Hsame. simpl. by apply cleanup_same_wire.
  - apply Hsame. eauto using same_wire_refl.
  - unfold handleSendMessage, ws_send.
    destruct (falsy _); [by apply Hsame; eauto using same_wire_refl|].
    destruct (wsRef w) as [n|] eqn:Hn; [|by apply Hsame; eauto using same_wire_refl].
    destruct (connectionStatus w) eqn:Hst;
      try (by apply Hsame; eauto using same_wire_refl).
    destruct (sockets w !! n) as [s0|] eqn:Hs0; simpl;
      [|by exists s; auto].
    destruct (readyState s0) eqn:Hr; simpl; try (by exists s; auto).
    rewrite list_lookup_alter. destruct (decide (n = h)) as [->|Hne].
    + rewrite Hs. simpl. eexists. split; [done|]. simplify_eq. simpl.
      split; [done|]. split; [done|]. right. done.
    + exists s. auto.
  - apply Hsame. eauto using same_wire_refl.
  - apply Hsame. destruct o; simpl; eauto using same_wire_refl.
  - apply Hsame.
    assert (sockets (onopen (set_sockets (alter (with_readyState OPEN) h0) w))
            = alter (with_readyState OPEN) h0 (sockets w)) as ->.
    { unfold onopen. simpl. by destruct (reconnectTimeoutRef w). }
    by apply alter_same_wire.
  - apply Hsame. destruct data; simpl; eauto using same_wire_refl.
  - apply Hsame. eauto using same_wire_refl.
  - apply Hsame. destruct (sockets w !! h0); simpl; eauto using same_wire_refl.
    by apply alter_same_wire.
  - apply Hsame. destruct (list_find _ _) as [[? x]|]; eauto using same_wire_refl.
    unfold reconnect. by apply connectWebSocket_same_wire.
Qed.

Lemma X3_only_submit_witness :
  let w := run [Mount 42; WsOpen 0; Change (js "hi"); Submit] signed_in in
  ∃ s', sockets (run [Rerender 7] w) !! 0 = Some s'
    ∧ ws_group s' = 42%Z
    ∧ ws_token s' = js "secret"
    ∧ ws_sent s' = [JObject [("content"%string, JString (js "hi"))]].
Proof.
  intros w.
  destruct (X3_only_submit_sends_frames w (Rerender 7) 0
              {| ws_group := 42; ws_token := js "secret"; readyState := OPEN;
                 ws_sent := [JObject [("content"%string, JString (js "hi"))]] |}
              eq_refl) as (s' & Hs' & Hg & Ht & [Hf|(Hf & _)]).
  - exists s'. by repeat split.
  - discriminate Hf.
Defined.

(** *** The send controls *)

Lemma no_live_not_alive w h s :
  length (live_sockets w) = 0 → sockets w !! h = Some s → ¬ alive s.
Proof.
  intros Hl Hs Ha. pose proof (alive_lookup_pos (sockets w) h s Hs Ha).
  unfold live_sockets in Hl. lia.
Qed.

Lemma connectWebSocket_alive_is_handle g w :
  length (live_sockets w) = 0 →
  alive_is_handle (connectWebSocket g w)
  ∧ connectionStatus (connectWebSocket g w) ≠ connected.
Proof.
  intros Hl. unfold connectWebSocket, localStorage_getItem.
  assert (∀ w', sockets w' = sockets w → alive_is_handle w') as Hsame.
  { intros w' Hw' h s Hs Ha. rewrite Hw' in Hs.
    by destruct (no_live_not_alive w h s Hl Hs). }
  destruct (token w) as [[|c tok]|]; simpl; [by split; [apply Hsame|]| |by split; [apply Hsame|]].
  split; [|done]. intros h s. simpl. intros Hs Ha.
  apply lookup_app_Some in Hs as [Hs|[Hlen Hs]].
  - exfalso. destruct (wsRef w) as [h0|]; simpl in Hs.
    + rewrite list_lookup_alter in Hs. destruct (decide (h0 = h)) as [->|].
      * destruct (sockets w !! h) as [s0|] eqn:Hs0; [|done]. simplify_eq/=.
        apply (no_live_not_alive w h s0 Hl Hs0). by apply close_socket_alive.
      * by apply (no_live_not_alive w h s Hl).
    + by apply (no_live_not_alive w h s Hl).
  - f_equal. apply lookup_lt_Some in Hs. simpl in Hs. lia.
Qed.

Lemma step_handle_present w e :
  (∀ g, e ≠ Rerender g) → settled_chain w →
  alive_is_handle w ∧ connected_has_handle w →
  alive_is_handle (step w e) ∧ connected_has_handle (step w e).
Proof.
  intros Hre [Hone Hfresh] [Hh Hc]. unfold step.
  destruct (enabled w e) eqn:En; [|done].
  unfold at_most_one_in_flight in Hone.
  destruct e as [g|g| |v| |tok|i o|h|h data|h|h|t]; simpl in *.
  - destruct (phase w) eqn:Hp; try done. destruct (Hfresh eq_refl) as [Hs _].
    destruct (connectWebSocket_alive_is_handle g
                (fetchInitialMessages g (set_phase (Active g) w))) as [H1 H2].
    { unfold live_sockets. simpl. by rewrite Hs. }
    split; [exact H1|]. by intros _ ?.
  - by destruct (Hre g).
  - split; [|by intros ?].
    intros h s. simpl. destruct (cleanup_handle w) as [-> ->].
    destruct (wsRef w) as [h0|] eqn:Hw;
      [|intros Hs Ha; rewrite <- Hw; by apply (Hh h s)].
    rewrite list_lookup_alter. destruct (decide (h0 = h)) as [->|]; [done|].
    intros Hs Ha. rewrite <- Hw. by apply (Hh h s).
  - done.
  - destruct (handleSendMessage w) as [w'|] eqn:E; [|done].
    unfold handleSendMessage, ws_send in E.
    destruct (falsy _); [by simplify_eq|].
    destruct (wsRef w) as [n|] eqn:Hn; [|by simplify_eq].
    destruct (connectionStatus w) eqn:Hst; try by simplify_eq.
    destruct (sockets w !! n) as [s0|] eqn:Hs0;
      [|simplify_eq; split; [done|]; intros _ _; simpl; by rewrite Hn].
    destruct (readyState s0) eqn:Hr; simplify_eq;
      try (split; [done|]; intros _ _; simpl; by rewrite Hn).
    split; [|intros _ _; simpl; by rewrite Hn].
    intros h s. simpl. rewrite list_lookup_alter, Hn.
    destruct (decide (n = h)) as [->|]; [done|].
    intros Hs Ha. rewrite <- Hn. by apply (Hh h s).
  - done.
  - destruct o; simpl; done.
  - unfold socket_in in En. destruct (sockets w !! h) as [s|] eqn:Hs; [|done].
    apply bool_decide_eq_true_1 in En.
    assert (wsRef w = Some h) as Hw by (apply (Hh h s Hs); unfold alive; by rewrite En).
    assert (wsRef (onopen (set_sockets (alter (with_readyState OPEN) h) w))
            = wsRef w) as Hw'.
    { unfold onopen. simpl. by destruct (reconnectTimeoutRef w). }
    assert (sockets (onopen (set_sockets (alter (with_readyState OPEN) h) w))
            = alter (with_readyState OPEN) h (sockets w)) as Hso.
    { unfold onopen. simpl. by destruct (reconnectTimeoutRef w). }
    split.
    + intros k s'. rewrite Hw', Hso, list_lookup_alter.
      destruct (decide (h = k)) as [->|]; [done|]. by apply Hh.
    + intros _ _. by rewrite Hw', Hw.
  - destruct data; simpl; done.
  - split; [done|]. by intros _ ?.
  - unfold socket_in in En. destruct (sockets w !! h) as [s|] eqn:Hs; [|done].
    apply bool_decide_eq_true_1 in En. split; [|by intros _ ?].
    intros k s'. simpl. intros Hk Ha. exfalso.
    pose proof (live_alter_closed h (sockets w) s Hs En) as Hl.
    pose proof (alive_lookup_pos _ k s' Hk Ha). unfold live_sockets in Hone. lia.
  - apply bool_decide_eq_true_1 in En.
    destruct (list_find _ _) as [[? x]|]; [|done].
    pose proof (length_timer_fired t w En) as Hlt.
    destruct (connectWebSocket_alive_is_handle (timer_group x)
                (console_log AttemptingToReconnect (clearTimeout t w))) as [H1 H2].
    { unfold live_sockets in *. simpl in *. lia. }
    split; [exact H1|]. by intros _ ?.
Qed.

Lemma run_handle_present evs w :
  one_activation evs → settled_chain w →
  alive_is_handle w ∧ connected_has_handle w →
  alive_is_handle (run evs w) ∧ connected_has_handle (run evs w).
Proof.
  revert w. induction evs as [|e evs IH]; intros w Hev Hw Hh; [done|].
  change (run (e :: evs) w) with (run evs (step w e)).
  assert (∀ g, e ≠ Rerender g) as He by (intros g ->; apply (Hev g); left).
  apply IH.
  - intros g Hg. apply (Hev g). by right.
  - by apply step_settled_chain.
  - by apply step_handle_present.
Qed.



(** *** Cleanup *)

Lemma close_socket_idemp s : close_socket (close_socket s) = close_socket s.
Proof. unfold close_socket. by destruct (readyState s) eqn:E; simpl; rewrite ?E. Qed.

(** X5. The effect's cleanup is idempotent and touches nothing but the
    socket in the handle and the timer in the timer ref: running it
    twice gives the same world as running it once, it changes nothing at
    all when both refs are empty, and it never changes the message
    list, the input, the state or the refs themselves. *)
Theorem X5_cleanup_is_idempotent :
  (∀ w, cleanup (cleanup w) = cleanup w)
  ∧ (∀ w, wsRef w = None → reconnectTimeoutRef w = None → cleanup w = w)
  ∧ (∀ w, messages (cleanup w) = messages w
          ∧ newMessage (cleanup w) = newMessage w
          ∧ connectionStatus (cleanup w) = connectionStatus w
          ∧ wsRef (cleanup w) = wsRef w
          ∧ reconnectTimeoutRef (cleanup w) = reconnectTimeoutRef w
          ∧ length (sockets (cleanup w)) = length (sockets w)).
Proof.
  split; [|split].
  - intros [ms nm st [h|] [t|] ph tk ss ts nt fs co]; unfold cleanup; simpl;
      unfold clearTimeout, ws_close, set_timers, set_sockets; simpl; f_equal;
      try done.
    + rewrite list_alter_alter_eq. apply list_alter_ext; [|done].
      intros x _. apply close_socket_idemp.
    + by apply list_filter_filter_l.
    + rewrite list_alter_alter_eq. apply list_alter_ext; [|done].
      intros x _. apply close_socket_idemp.
    + by apply list_filter_filter_l.
  - intros w Hw Ht. unfold cleanup. by rewrite Hw, Ht.
  - intros [ms nm st [h|] [t|] ph tk ss ts nt fs co]; unfold cleanup; simpl;
      by rewrite ?length_alter.
Qed.

Lemma X5_cleanup_witness : cleanup (init None) = init None.
Proof.
  exact (proj1 (proj2 X5_cleanup_is_idempotent) (init None) eq_refl eq_refl).
Defined.

(** *** One connection at a time *)

(** X6. While [groupId] stays the same, at every moment at most one
    socket is not closed or one reconnection timer is pending, never
    both; a socket that is not closed is the one the handle names, and
    the handle never names a closed socket. *)
Theorem X6_one_connection_at_a_time :
  ∀ tok evs, one_activation evs →
    at_most_one_in_flight (run evs (init tok))
    ∧ alive_is_handle (run evs (init tok))
    ∧ handle_alive (run evs (init tok)).
Proof.
  intros tok evs Hev. split; [by apply one_activation_in_flight|]. split.
  - by apply (run_handle_present evs (init tok) Hev (init_settled_chain tok)).
  - by apply (run_handle evs (init tok) Hev (init_settled_chain tok)).
Qed.

Lemma X6_one_connection_witness :
  at_most_one_in_flight
    (run [Mount 42; WsOpen 0; WsError 0; WsClose 0; TimerFire 1; WsOpen 1; Unmount]
         signed_in).
Proof.
  apply (X6_one_connection_at_a_time (Some (js "secret"))
           [Mount 42; WsOpen 0; WsError 0; WsClose 0; TimerFire 1; WsOpen 1; Unmount]).
  intros g Hg.
  repeat (apply elem_of_cons in Hg as [Hg|Hg]; [discriminate Hg|]).
  by apply elem_of_nil in Hg.
Defined.

(** *** Where a reconnection goes *)







(** *** When reconnection stops *)

Lemma quiet_closed w h s :
  live_sockets w = [] → sockets w !! h = Some s → readyState s = CLOSED.
Proof.
  intros Hl Hs. destruct (decide (readyState s = CLOSED)) as [|Hne]; [done|].
  exfalso. apply (no_live_not_alive w h s); [by rewrite Hl|done|done].
Qed.

Lemma quiet_alter_close w h :
  live_sockets w = [] → alter close_socket h (sockets w) = sockets w.
Proof.
  intros Hl. rewrite <- (list_alter_id (λ x, x) (sockets w) h) at 2 by done.
  apply list_alter_ext; [|done]. intros s Hs. unfold close_socket.
  by rewrite (quiet_closed w h s Hl Hs).
Qed.

Lemma step_quiet w e :
  (∀ g, e ≠ Rerender g) → quiet w →
  quiet (step w e) ∧ sockets (step w e) = sockets w.
Proof.
  intros Hre (Hl & Ht & Hp). unfold step.
  destruct (enabled w e) eqn:En; [|done].
  assert (∀ w', sockets w' = sockets w → timers w' = timers w →
                phase w' ≠ Fresh → quiet w' ∧ sockets w' = sockets w) as Hsame.
  { intros w' Hs' Ht' Hp'. unfold quiet, live_sockets in *.
    by rewrite Hs', Ht'. }
  destruct e as [g|g| |v| |tok|i o|h|h data|h|h|t]; simpl in *.
  - by destruct (phase w).
  - by destruct (Hre g).
  - destruct (cleanup_handle w) as [_ Hso].
    apply (Hsame (set_phase Gone (cleanup w))).
    + simpl. rewrite Hso. destruct (wsRef w); [by apply quiet_alter_close|done].
    + simpl. pose proof (timers_cleanup w) as Hsub. rewrite Ht in Hsub.
      apply sublist_nil_r in Hsub. by rewrite Hsub.
    + done.
  - by apply (Hsame (setNewMessage v w)).
  - destruct (handleSendMessage w) as [w'|] eqn:E; [|by apply (Hsame w)].
    apply (Hsame w').
    all: unfold handleSendMessage, ws_send in E.
    all: destruct (falsy _); [by simplify_eq|].
    all: destruct (wsRef w) as [n|]; [|by simplify_eq].
    all: destruct (connectionStatus w); try by simplify_eq.
    all: destruct (sockets w !! n) as [s0|] eqn:Hs0; [|by simplify_eq].
    all: rewrite (quiet_closed w n s0 Hl Hs0) in E; by simplify_eq.
  - by apply (Hsame (set_token tok w)).
  - apply (Hsame (fetchInitialMessages_resume o (set_fetches (alter settle i) w)));
      by destruct o.
  - unfold socket_in in En. destruct (sockets w !! h) as [s|] eqn:Hs; [|done].
    by rewrite (quiet_closed w h s Hl Hs) in En.
  - unfold socket_in in En. destruct (sockets w !! h) as [s|] eqn:Hs; [|done].
    by rewrite (quiet_closed w h s Hl Hs) in En.
  - unfold socket_in in En. destruct (sockets w !! h) as [s|] eqn:Hs; [|done].
    by rewrite (quiet_closed w h s Hl Hs) in En.
  - unfold socket_in in En. destruct (sockets w !! h) as [s|] eqn:Hs; [|done].
    by rewrite (quiet_closed w h s Hl Hs) in En.
  - by rewrite Ht in En.
Qed.

Lemma run_quiet evs w :
  one_activation evs → quiet w →
  quiet (run evs w) ∧ sockets (run evs w) = sockets w.
Proof.
  revert w. induction evs as [|e evs IH]; intros w Hev Hw; [done|].
  change (run (e :: evs) w) with (run evs (step w e)).
  assert (∀ g, e ≠ Rerender g) as He by (intros g ->; apply (Hev g); left).
  destruct (step_quiet w e He Hw) as [Hq Hs].
  destruct (IH (step w e)) as [Hq' Hs']; [intros g Hg; apply (Hev g); by right|done|].
  split; [done|]. by rewrite Hs'.
Qed.

(** X8. Losing the token ends reconnection for good. While [groupId]
    stays the same, if the reconnection timer fires when storage holds
    no token (or an empty one), the state becomes [error] with no socket
    open and no timer pending, and from then on no event creates a
    socket or a timer again, not even storing a token afterwards: only a
    new [groupId] restarts the connection. *)
Theorem X8_reconnection_stops_without_token :
  ∀ tok evs t evs',
    one_activation evs →
    absent_or_empty (token (run evs (init tok))) →
    enabled (run evs (init tok)) (TimerFire t) = true →
    one_activation evs' →
    connectionStatus (step (run evs (init tok)) (TimerFire t)) = error
    ∧ live_sockets (step (run evs (init tok)) (TimerFire t)) = []
    ∧ sockets (run evs' (step (run evs (init tok)) (TimerFire t)))
      = sockets (run evs (init tok))
    ∧ timers (run evs' (step (run evs (init tok)) (TimerFire t))) = [].
Proof.
  intros tok evs t evs' Hev Htok En Hev'.
  destruct (run_settled_chain evs (init tok) Hev (init_settled_chain tok))
    as [Hone Hfresh].
  generalize dependent (run evs (init tok)). intros w Htok En Hone Hfresh.
  pose proof En as En'. simpl in En'. apply bool_decide_eq_true_1 in En'.
  pose proof (length_timer_fired t w En') as Hlt.
  unfold at_most_one_in_flight in Hone.
  assert (step w (TimerFire t)
          = setConnectionStatus error
              (console_log NoAuthTokenFound
                 (console_log AttemptingToReconnect (clearTimeout t w)))) as Hstep.
  { unfold step. rewrite En. simpl.
    destruct (list_find _ _) as [[? x]|] eqn:Hf.
    - unfold reconnect, connectWebSocket, localStorage_getItem. simpl.
      by destruct Htok as [-> | ->].
    - exfalso. apply list_find_None in Hf.
      apply list_elem_of_fmap in En' as (x & -> & Hx).
      rewrite list.Forall_forall in Hf. by apply (Hf x Hx). }
  assert (quiet (step w (TimerFire t))) as Hq.
  { rewrite Hstep. unfold quiet, live_sockets. simpl. repeat split.
    - apply nil_length_inv. fold (live_sockets w). lia.
    - apply nil_length_inv.
      change (length (timers (clearTimeout t w)) = 0). lia.
    - intros Hp. destruct (Hfresh Hp) as [_ Ht]. rewrite Ht in En'.
      by apply elem_of_nil in En'. }
  destruct (run_quiet evs' _ Hev' Hq) as [(_ & Ht & _) Hs].
  split; [by rewrite Hstep|]. split; [apply Hq|]. split; [|done].
  rewrite Hs, Hstep. done.
Qed.

Lemma X8_reconnection_stops_witness :
  sockets (run [StorageSet (Some (js "again")); Change (js "hi"); Submit]
             (step (run [Mount 42; WsOpen 0; StorageSet None; WsClose 0]
                        (init (Some (js "secret"))))
                   (TimerFire 1)))
  = sockets (run [Mount 42; WsOpen 0; StorageSet None; WsClose 0]
                 (init (Some (js "secret")))).
Proof.
  assert (∀ evs, (∀ g, Rerender g ∈ evs → False) → one_activation evs) as Hone
    by (intros evs H g Hg; exact (H g Hg)).
  refine (proj1 (proj2 (proj2 (X8_reconnection_stops_without_token
            (Some (js "secret"))
            [Mount 42; WsOpen 0; StorageSet None; WsClose 0] 1
            [StorageSet (Some (js "again")); Change (js "hi"); Submit]
            (Hone _ _) (or_introl eq_refl) eq_refl (Hone _ _))))).
  - intros g Hg.
    repeat (apply elem_of_cons in Hg as [Hg|Hg]; [discriminate Hg|]).
    by apply elem_of_nil in Hg.
  - intros g Hg.
    repeat (apply elem_of_cons in Hg as [Hg|Hg]; [discriminate Hg|]).
    by apply elem_of_nil in Hg.
Defined.

(** *** The status line *)

(** X9. The status text tells the four states apart, the icon does
    not: it is the same for [disconnected] and [error] and differs
    between any other two states. The input and the button are disabled
    together, exactly when the state is not [connected], and the
    placeholder then reads "Connecting..." whatever the state, also
    after an error. *)
Theorem X9_status_line :
  (∀ w w', getStatusText w = getStatusText w' →
           connectionStatus w = connectionStatus w')
  ∧ (∀ w w', getStatusIcon w = getStatusIcon w' ↔
       connectionStatus w = connectionStatus w'
       ∨ ((connectionStatus w = disconnected ∨ connectionStatus w = error)
          ∧ (connectionStatus w' = disconnected ∨ connectionStatus w' = error)))
  ∧ (∀ w, input_disabled (render_form w) = button_disabled (render_form w)
          ∧ (input_disabled (render_form w) = true
             ↔ connectionStatus w ≠ connected)
          ∧ (input_disabled (render_form w) = true
             ↔ input_placeholder (render_form w) = js "Connecting...")).
Proof.
  split; [|split].
  - intros w w'. unfold getStatusText.
    by destruct (connectionStatus w), (connectionStatus w').
  - intros w w'. unfold getStatusIcon.
    destruct (connectionStatus w), (connectionStatus w'); split; intros H;
      try done; try (by left);
      try (by right; split; first [by left|by right]);
      by destruct H as [H|[[H1|H1] [H2|H2]]].
  - intros w. simpl. split; [done|]. split.
    + by rewrite bool_decide_eq_true.
    + rewrite bool_decide_eq_true. by destruct (connectionStatus w).
Qed.

Lemma X9_status_line_witness :
  connectionStatus (run [Mount 42; WsOpen 0] signed_in)
  = connectionStatus (setConnectionStatus connected (init None)).
Proof.
  exact (proj1 X9_status_line (run [Mount 42; WsOpen 0] signed_in)
           (setConnectionStatus connected (init None)) eq_refl).
Defined.

(** ** Properties of the page around the chat *)

Section page.

Import GroupDetail.

(** *** Initials *)

Lemma split_nonempty sep s : split sep s ≠ [].
Proof.
  destruct s as [|c s]; simpl; [done|].
  destruct (c =? sep)%N; [done|]. by destruct (split sep s).
Qed.

Lemma split_app sep a b :
  split sep (a ++ sep :: b) = split sep a ++ split sep b.
Proof.
  induction a as [|c a IH]; simpl.
  - by rewrite N.eqb_refl.
  - destruct (c =? sep)%N; [by rewrite IH|]. rewrite IH.
    pose proof (split_nonempty sep a). by destruct (split sep a).
Qed.

Lemma split_no_sep sep s : sep ∉ s → split sep s = [s].
Proof.
  induction s as [|c s IH]; [done|]. intros [Hne Hnin]%not_elem_of_cons. simpl.
  destruct (c =? sep)%N eqn:E; [apply N.eqb_eq in E; by subst|].
  by rewrite IH.
Qed.

Lemma split_spaced ws :
  ws ≠ [] → Forall (λ w, 32%N ∉ w) ws → split 32 (spaced ws) = ws.
Proof.
  induction ws as [|w ws IH]; [done|]. intros _ Hws.
  apply list.Forall_cons in Hws as [Hw Hws]. destruct ws as [|w' ws].
  - simpl. by apply split_no_sep.
  - change (spaced (w :: w' :: ws)) with (w ++ 32%N :: spaced (w' :: ws)).
    rewrite split_app, IH, split_no_sep by done. done.
Qed.

Lemma spaced_cons c w ws : spaced ((c :: w) :: ws) = c :: spaced (w :: ws).
Proof. by destruct ws. Qed.

Lemma spaced_split s : spaced (split 32 s) = s.
Proof.
  induction s as [|c s IH]; [done|]. simpl.
  destruct (c =? 32)%N eqn:E.
  - apply N.eqb_eq in E. subst. pose proof (split_nonempty 32 s).
    destruct (split 32 s) eqn:Hs; [done|]. simpl. by rewrite <- IH.
  - pose proof (split_nonempty 32 s).
    destruct (split 32 s) eqn:Hs; [done|]. rewrite spaced_cons. by rewrite IH.
Qed.

Lemma split_pieces s : Forall (λ w, 32%N ∉ w) (split 32 s).
Proof.
  induction s as [|c s IH]; simpl.
  - apply Forall_singleton. apply not_elem_of_nil.
  - destruct (c =? 32)%N eqn:E.
    + apply list.Forall_cons. split; [apply not_elem_of_nil|done].
    + pose proof (split_nonempty 32 s).
      destruct (split 32 s) eqn:Hs; [done|].
      apply list.Forall_cons in IH as [Hj Hl]. apply list.Forall_cons. split; [|done].
      apply not_elem_of_cons. split; [|done].
      intros <-. by rewrite N.eqb_refl in E.
Qed.

Lemma join_head ws : join ((λ n, head n) <$> ws) = omap head ws.
Proof.
  induction ws as [|w ws IH]; [done|]. rewrite fmap_cons.
  destruct w as [|c w]; simpl; [exact IH|f_equal; exact IH].
Qed.

(** X10. [getInitials] gives at most two code units. A name is its
    space-separated pieces written with single spaces between them
    (empty pieces standing for leading, trailing and repeated spaces),
    and the initials are the first two code units of the upper-cased
    string of first letters of the non-empty pieces, in order: extra
    spaces contribute nothing, and a blank name has the initials of the
    empty string. *)
Theorem X10_initials_are_first_letters_of_the_words :
  (∀ toUpperCase name, length (getInitials toUpperCase name) ≤ 2)
  ∧ (∀ name, spaced (split 32 name) = name
             ∧ Forall (λ w, 32%N ∉ w) (split 32 name))
  ∧ (∀ toUpperCase ws, Forall (λ w, 32%N ∉ w) ws →
       getInitials toUpperCase (spaced ws)
       = take 2 (toUpperCase (omap head ws))).
Proof.
  split; [|split].
  - intros up name. unfold getInitials. rewrite length_take. lia.
  - intros name. split; [apply spaced_split|apply split_pieces].
  - intros up ws Hws. unfold getInitials. rewrite join_head.
    destruct ws as [|w ws]; [done|]. by rewrite split_spaced.
Qed.

Lemma X10_initials_witness :
  getInitials ascii_upper (js "  ada   lovelace king ") = js "AL".
Proof.
  apply (proj2 (proj2 X10_initials_are_first_letters_of_the_words) ascii_upper
           [[]; []; js "ada"; []; []; js "lovelace"; js "king"; []]).
  apply (bool_decide_unpack _). vm_compute. exact I.
Defined.

(** *** The connect button *)

Lemma button_cases al m :
  (open_to_request m
   ∧ getConnectionButton al m
     = {| disabled := bool_decide (al = Some (id m));
          icon := if decide (al = Some (id m)) then Loader else UserPlus;
          label := if decide (al = Some (id m)) then js "Sending..." else js "Connect";
          onClick := Some (id m) |})
  ∨ (¬ open_to_request m
     ∧ disabled (getConnectionButton al m) = true
     ∧ onClick (getConnectionButton al m) = None).
Proof.
  unfold getConnectionButton, open_to_request.
  destruct (connection_status m) as [[|c st]|] eqn:E.
  - left. split; [|done]. intros st [= <-]. by repeat split.
  - destruct (decide (c :: st = js "accepted")) as [Ha|Ha].
    { right. split; [|done]. intros Ho. by destruct (Ho _ eq_refl) as (?&?&?&?). }
    destruct (decide (c :: st = js "pending")) as [Hp|Hp].
    { right. split; [|done]. intros Ho. by destruct (Ho _ eq_refl) as (?&?&?&?). }
    destruct (decide (c :: st = js "rejected" ∨ c :: st = js "blocked")) as [Hr|Hr].
    { right. split; [|done]. intros Ho. destruct (Ho _ eq_refl) as (?&?&?&?).
      by destruct Hr. }
    left. split; [|done]. intros st' [= <-].
    repeat split; try done; intros Heq; apply Hr; first [by left|by right].
  - left. split; [|done]. by intros st.
Qed.

(** X11. The connect button of a member takes a click exactly when the
    member's status is none of accepted, pending, rejected and blocked
    (a missing or empty status counts as none of them) and no request
    for that same member is in flight; the click then asks for a
    connection with that member. For the four statuses the button is
    disabled and has no click handler, whatever request is in flight. *)
Theorem X11_connect_button_takes_a_click :
  ∀ actionLoading m,
    (clickable (getConnectionButton actionLoading m) = true
     ↔ open_to_request m ∧ actionLoading ≠ Some (id m))
    ∧ (clickable (getConnectionButton actionLoading m) = true →
       onClick (getConnectionButton actionLoading m) = Some (id m))
    ∧ (¬ open_to_request m →
       disabled (getConnectionButton actionLoading m) = true
       ∧ onClick (getConnectionButton actionLoading m) = None).
Proof.
  intros al m. destruct (button_cases al m) as [[Ho Heq]|(Hno & Hd & Hc)].
  - rewrite Heq. unfold clickable. simpl. split; [|split].
    + split.
      * intros Hcl. split; [done|]. intros Hal.
        by rewrite bool_decide_eq_true_2 in Hcl.
      * intros [_ Hne]. by rewrite bool_decide_eq_false_2.
    + done.
    + by intros ?.
  - unfold clickable. rewrite Hd. simpl. split; [|split].
    + split; [done|]. by intros [? _].
    + done.
    + done.
Qed.

Lemma X11_connect_button_witness :
  clickable (getConnectionButton (Some 2%Z) (member 1 None)) = true
  ∧ disabled (getConnectionButton None (member 1 (Some (js "blocked")))) = true.
Proof.
  split.
  - apply (proj1 (X11_connect_button_takes_a_click (Some 2%Z) (member 1 None))).
    split; [intros st Hst; discriminate Hst|discriminate].
  - apply (proj2 (proj2 (X11_connect_button_takes_a_click None
                           (member 1 (Some (js "blocked")))))).
    intros Ho. destruct (Ho (js "blocked") eq_refl) as (_ & _ & _ & Hb). by apply Hb.
Defined.

(** *** Asking for a connection *)

Lemma awaiting_settle i p : awaiting i (settle i p) = None.
Proof.
  unfold awaiting, settle. simpl. rewrite list_lookup_alter_eq.
  by destruct (requests p !! i) as [[r b]|].
Qed.

Lemma step_connection_settled p i tok userId mbs o :
  awaiting i p = Some (PostConnection tok userId mbs) →
  step p (ConnectionSettled i o)
  = handleAddConnection_resume userId mbs o (settle i p).
Proof. intros Ha. unfold step. simpl. by rewrite Ha. Qed.

(** X12. When the request of [handleAddConnection] for a member comes
    back [ok], the member list becomes the list the handler was called
    with, in the same order and with the same ids, in which exactly the
    members with that id now read "pending": their button is disabled
    and has lost its click handler, so the request cannot be sent
    twice, and every other member is as it was. The error message is
    not touched and the request settles only once. *)
Theorem X12_accepted_request_marks_the_member_pending :
  ∀ p i tok userId mbs body,
    awaiting i p = Some (PostConnection tok userId mbs) →
    id <$> members (step p (ConnectionSettled i (Response true body))) = id <$> mbs
    ∧ (∀ k m, members (step p (ConnectionSettled i (Response true body))) !! k = Some m →
         id m = userId →
         ∀ al, getConnectionButton al m
               = {| disabled := true; icon := Loader; label := js "Pending";
                    onClick := None |})
    ∧ (∀ k m, mbs !! k = Some m → id m ≠ userId →
         members (step p (ConnectionSettled i (Response true body))) !! k = Some m)
    ∧ actionLoading (step p (ConnectionSettled i (Response true body))) = None
    ∧ error (step p (ConnectionSettled i (Response true body))) = error p
    ∧ awaiting i (step p (ConnectionSettled i (Response true body))) = None.
Proof.
  intros p i tok userId mbs body Ha.
  rewrite (step_connection_settled p i tok userId mbs _ Ha). simpl.
  split; [|split; [|split]].
  - rewrite <- list_fmap_compose. apply list_fmap_ext. intros k m _. simpl.
    by destruct (decide (id m = userId)).
  - intros k m Hk Hid al. rewrite list_lookup_fmap in Hk.
    destruct (mbs !! k) as [m0|]; [|done]. simpl in Hk.
    destruct (decide (id m0 = userId)); simplify_eq. reflexivity.
  - intros k m Hk Hne. rewrite list_lookup_fmap, Hk. simpl.
    by destruct (decide (id m = userId)).
  - repeat split. apply (awaiting_settle i p).
Qed.

Lemma X12_accepted_request_witness :
  id <$> members
    (step (run [Route (js "7");
                GroupSettled 0 (Response true (Json (study_group 7)));
                MembersSettled 1 (Response true (Json [member 1 None; member 2 None]));
                ClickConnect (member 1 None)] (init (Some (js "secret"))))
          (ConnectionSettled 2 (Response true (BadJson []))))
  = [1%Z; 2%Z].
Proof.
  exact (proj1 (X12_accepted_request_marks_the_member_pending
    (run [Route (js "7");
          GroupSettled 0 (Response true (Json (study_group 7)));
          MembersSettled 1 (Response true (Json [member 1 None; member 2 None]));
          ClickConnect (member 1 None)] (init (Some (js "secret"))))
    2 (js "secret") 1%Z [member 1 None; member 2 None] (BadJson []) eq_refl)).
Defined.



(** *** What the page shows over time *)

Ltac page_cases :=
  unfold fetchGroup_resume, fetchMembers_resume, fetchMembers, effect,
    handleShareResource, handleShareResource_resume, handleLeaveGroup,
    handleLeaveGroup_resume, handleAddConnection, handleAddConnection_resume,
    fetch, settle in *;
  simpl; repeat case_match; simplify_eq/=; eauto.

Lemma shows_detail_iff p :
  shows_detail p = true ↔ loading p = false ∧ is_Some (group p).
Proof.
  unfold shows_detail, render. destruct (loading p).
  { split; [done|]. by intros [? ?]. }
  destruct (group p) as [g|].
  - split; [|done]. intros _. split; [done|]. by eexists.
  - split; [intros H; discriminate H|]. intros [_ [x Hx]]. discriminate Hx.
Qed.

Lemma step_loading p e : loading p = false → loading (step p e) = false.
Proof.
  intros Hl. unfold step. destruct (enabled p e); [|done].
  destruct e; simpl; page_cases.
Qed.

Lemma step_group p e : is_Some (group p) → is_Some (group (step p e)).
Proof.
  intros Hg. unfold step. destruct (enabled p e); [|done].
  destruct e; simpl; page_cases.
Qed.

Lemma step_group_changes p e g :
  group (step p e) = Some g → group p ≠ Some g →
  ∃ i, e = GroupSettled i (Response true (Json g)).
Proof.
  unfold step. destruct (enabled p e); [|done].
  destruct e; simpl; intros Hg Hne; try done; revert Hg Hne; page_cases;
    intros; simplify_eq/=; try done; eauto.
Qed.

(** X14. Once the page shows the group, and the chat inside it, no
    change of the page's own state takes them away again: [loading]
    never becomes true again and [group] never becomes empty again, so
    as long as the page itself is mounted no later event (a change of
    the route id, a failed reload, a failed request) unmounts the chat
    component. The [groupId] handed to the chat changes only when a group
    request settles with an [ok] response, and then to the id of the
    group that response carries. *)
Theorem X14_chat_stays_mounted :
  (∀ evs p, shows_detail p = true → shows_detail (run evs p) = true)
  ∧ (∀ p e g g',
       chat_groupId p = Some g → chat_groupId (step p e) = Some g' → g ≠ g' →
       ∃ i data, e = GroupSettled i (Response true (Json data))
                 ∧ g' = group_id data).
Proof.
  split.
  - induction evs as [|e evs IH]; intros p Hp; [done|].
    change (run (e :: evs) p) with (run evs (step p e)). apply IH.
    apply shows_detail_iff in Hp as [Hl Hg]. apply shows_detail_iff.
    split; [by apply step_loading|by apply step_group].
  - intros p e g g' Hg Hg' Hne. unfold chat_groupId, render in Hg, Hg'.
    destruct (loading p); [done|]. destruct (loading (step p e)); [done|].
    destruct (group p) as [d|] eqn:Hd; [|done].
    destruct (group (step p e)) as [d'|] eqn:Hd'; [|done]. simplify_eq/=.
    destruct (step_group_changes p e d' Hd') as [i ->]; [|by eauto].
    rewrite Hd. intros [= ->]. done.
Qed.

Lemma X14_chat_stays_mounted_witness :
  shows_detail
    (run [Route (js "8"); GroupSettled 1 (Rejected (js "Failed to fetch"));
          ClickLeave; LeaveSettled 2 (Response false (BadJson []))]
       (run [Route (js "7");
             GroupSettled 0 (Response true (Json (study_group 7)))]
            (init (Some (js "secret"))))) = true.
Proof.
  apply (proj1 X14_chat_stays_mounted). reflexivity.
Defined.

Lemma step_spinner p e :
  (∀ id, e ≠ Route id) → loading p = true → requests p = [] →
  loading (step p e) = true ∧ requests (step p e) = []
  ∧ navigated (step p e) = navigated p.
Proof.
  intros He Hl Hr. unfold step.
  destruct (enabled p e) eqn:En; [|done].
  assert (shows_detail p = false) as Hs by (unfold shows_detail, render; by rewrite Hl).
  assert (∀ i, awaiting i p = None) as Ha by (intros i; unfold awaiting; by rewrite Hr).
  destruct e; simpl in *; rewrite ?Ha, ?Hs in En; try done.
  by destruct (He id0).
Qed.

(** X15. A visitor without a token is sent to "/login" and never gets
    past the spinner: the effect asks for nothing, so as long as the
    route stays the same the page keeps loading, sends no request at all
    and navigates nowhere else, even if a token is stored later. *)
Theorem X15_no_token_no_page :
  ∀ tok id evs,
    absent_or_empty tok → (∀ id', Route id' ∉ evs) →
    render (run (Route id :: evs) (init tok)) = Spinner
    ∧ requests (run (Route id :: evs) (init tok)) = []
    ∧ navigated (run (Route id :: evs) (init tok)) = [js "/login"].
Proof.
  intros tok id0 evs Htok Hev.
  change (run (Route id0 :: evs) (init tok))
    with (run evs (step (init tok) (Route id0))).
  assert (loading (step (init tok) (Route id0)) = true
          ∧ requests (step (init tok) (Route id0)) = []
          ∧ navigated (step (init tok) (Route id0)) = [js "/login"]) as Hstart.
  { unfold step. simpl. unfold effect. simpl. by destruct Htok as [-> | ->]. }
  generalize dependent (step (init tok) (Route id0)).
  induction evs as [|e evs IH]; intros p (Hl & Hr & Hn).
  - change (run [] p) with p. unfold render. by rewrite Hl.
  - change (run (e :: evs) p) with (run evs (step p e)).
    apply IH; [intros id' Hin; apply (Hev id'); by right|].
    destruct (step_spinner p e) as (Hl' & Hr' & Hn'); try done.
    + intros id' ->. apply (Hev id'). left.
    + by rewrite Hn'.
Qed.

Lemma X15_no_token_witness :
  render (run [Route (js "7"); StorageSet (Some (js "late")); ToggleShareForm;
               ClickLeave] (init None)) = Spinner.
Proof.
  apply (proj1 (X15_no_token_no_page None (js "7")
                  [StorageSet (Some (js "late")); ToggleShareForm; ClickLeave]
                  (or_introl eq_refl)
                  ltac:(intros id' Hin;
                        repeat (apply elem_of_cons in Hin as [Hin|Hin];
                                [discriminate Hin|]);
                        by apply elem_of_nil in Hin))).
Defined.




End page.




End GroupChat.
